(** * ansible-variables: the duplicate remover and the [run] loop

    A shallow embedding of [src/lib/ansible_variables/cli/variables.py]:
    the deny-list [INTERNAL_VARS], the static method
    [VariablesCLI.delete_var] (the line scan, Python's text-mode file
    layer around it and its [try]/[except]) and the body of
    [VariablesCLI.run] (host loop, variable loop, duplicate report).

    Python strings are [string]; a file is the text it holds; the file
    system is a finite map from paths to texts; console output is a list
    of structured print events; exceptions are an explicit result type
    threaded through a small state-and-exception monad. *)

From Stdlib Require Import String Ascii List ZArith Bool Lia.
From stdpp Require Import base decidable option list strings gmap.
Import ListNotations.

(** ** Characters and [str] primitives *)

Definition LF : ascii := "010"%char.
Definition CR : ascii := "013"%char.
Definition TAB : ascii := "009"%char.
Definition SPACE : ascii := " "%char.

(** [s.startswith(p)] for a single prefix [p]. *)
Definition startswith (p s : string) : bool := String.prefix p s.

(** [line.startswith((' ', '\t'))]: the tuple form is true when one of
    the prefixes matches. *)
Definition startswith_space_or_tab (line : string) : bool :=
  startswith (String SPACE EmptyString) line
  || startswith (String TAB EmptyString) line.

(** ** The line scan of [delete_var] (source lines 182-191)

    The decisions of the loop do not depend on the files, so they are
    given first as a function of the lines; the loop with its writes is
    [write_loop] below, and [write_loop_scan] relates the two.

    [scan_step] is one iteration of the [for line in lines] loop: it
    takes the value of [var_found] on entry and gives its value on exit
    together with what the iteration passes to [fw.write] (nothing when
    the iteration ends in [continue]). *)

Definition scan_step (var : string) (var_found : bool) (line : string)
  : bool * list string :=
  let var_found :=
    if var_found then startswith_space_or_tab line else var_found in
  if startswith var line || var_found
  then (true, [])
  else (var_found, [line]).

(** The whole loop: the lines handed to [fw.write], in order. *)
Fixpoint scan_from (var : string) (var_found : bool) (lines : list string)
  : list string :=
  match lines with
  | [] => []
  | line :: rest =>
      let '(var_found', written) := scan_step var var_found line in
      written ++ scan_from var var_found' rest
  end.

(** [var_found = False] before the loop. *)
Definition scan (var : string) (lines : list string) : list string :=
  scan_from var false lines.

(** ** Python's text-mode file layer

    [open(path, 'r')] and [open(path, 'w')] are called without a
    [newline] argument, so universal newlines are in force: on input the
    terminators LF, CR LF and CR are all handed to the program as LF; on
    output every LF written is replaced by [os.linesep]. *)

Fixpoint universal_newlines (s : string) : string :=
  match s with
  | EmptyString => EmptyString
  | String c s' =>
      if Ascii.eqb c CR then
        String LF
          match s' with
          | String c' s'' =>
              if Ascii.eqb c' LF then universal_newlines s''
              else universal_newlines s'
          | EmptyString => EmptyString
          end
      else String c (universal_newlines s')
  end.

(** Cut a text after every LF, keeping the LF with its line; a last line
    without terminator is kept as it is. *)
Fixpoint split_keepends (s : string) : list string :=
  match s with
  | EmptyString => []
  | String c s' =>
      if Ascii.eqb c LF then String LF EmptyString :: split_keepends s'
      else
        match split_keepends s' with
        | [] => [String c EmptyString]
        | l :: ls => String c l :: ls
        end
  end.

(** [fr.readlines()] on a file whose content is [content]. *)
Definition readlines (content : string) : list string :=
  split_keepends (universal_newlines content).

(** What [fw.write(s)] appends to the file. *)
Fixpoint translate_newlines (linesep s : string) : string :=
  match s with
  | EmptyString => EmptyString
  | String c s' =>
      if Ascii.eqb c LF then linesep +:+ translate_newlines linesep s'
      else String c (translate_newlines linesep s')
  end.

(** The text a sequence of [fw.write] calls leaves in a file that was
    empty before them. *)
Definition written_text (linesep : string) (lines : list string) : string :=
  String.concat "" (map (translate_newlines linesep) lines).

(** The content [delete_var] gives a file when nothing fails. *)
Definition rewritten (linesep var content : string) : string :=
  written_text linesep (scan var (readlines content)).

(** ** The deny-list (source lines 19-41) *)

Definition INTERNAL_VARS : gset string :=
  list_to_set
    [ "ansible_diff_mode";
      "ansible_config_file";
      "ansible_facts";
      "ansible_forks";
      "ansible_inventory_sources";
      "ansible_limit";
      "ansible_playbook_python";
      "ansible_run_tags";
      "ansible_skip_tags";
      "ansible_verbosity";
      "ansible_version";
      "inventory_dir";
      "inventory_file";
      "inventory_hostname";
      "inventory_hostname_short";
      "groups";
      "group_names";
      "omit";
      "playbook_dir" ].

(** ** Data of the collaborators, as [run] reads it *)

(** A group is compared with [in] only; it is represented by its name. *)
Definition group := string.

(** A host: what [str(host)] prints and what [host.get_groups()]
    returns. *)
Record host_t := { host_name : string; get_groups : list group }.

(** An item yielded by [variable_sources]: [variable.name],
    [str(variable.value)] and [variable.source_mapped]. *)
Record variable_t := { name : string; value : string; source_mapped : string }.

(** [context.CLIARGS]: the two [store_true] options default to [None]. *)
Record cliargs := {
  host : string;
  variable : option string;
  check_duplicates : option bool;
  remove_duplicates : option bool
}.

(** Truth value of an option that is [None] or a [bool]. *)
Definition truthy (o : option bool) : bool := default false o.

(** ** Exceptions, console, program state *)

Inductive exn :=
| AnsibleOptionsError (msg : string)
| IndexError
| FileNotFoundError (path : string)
| OSError (path : string)
| MarkupError.

(** What reaches the console, one constructor per print statement. *)
Inductive out :=
| Header (h : string) (g : group)                 (* line 149 *)
| VarLine (n v src : string)                      (* lines 157-159 *)
| FileLine (f : string)                           (* line 164 *)
| DupHeader (n original : string)                 (* line 167 *)
| DupLine (dup : string) (deleted : bool)         (* line 171 *)
| Traceback (e : exn).                            (* line 193 *)

(** The file system, the console, and the history of [delete_var]
    invocations (path and [var] argument of each call, oldest first). *)
Record state := {
  files : gmap string string;
  console : list out;
  calls : list (string * string)
}.

Inductive py_result (A : Type) :=
| Return (a : A)
| Raise (e : exn).
Arguments Return {A} a.
Arguments Raise {A} e.

(** A Python statement: it changes the state and either completes or
    raises; what was done before a [raise] stays done. *)
Definition M (A : Type) : Type := state -> py_result A * state.

Definition ret {A} (a : A) : M A := fun st => (Return a, st).

Definition bind {A B} (c : M A) (k : A -> M B) : M B :=
  fun st =>
    match c st with
    | (Return a, st') => k a st'
    | (Raise e, st') => (Raise e, st')
    end.

Definition raise {A} (e : exn) : M A := fun st => (Raise e, st).

(** [try: c except Exception: h]. *)
Definition try_except {A} (c : M A) (h : exn -> M A) : M A :=
  fun st =>
    match c st with
    | (Return a, st') => (Return a, st')
    | (Raise e, st') => h e st'
    end.

Declare Scope py_scope.
Delimit Scope py_scope with py.
Notation "x <~ c1 ;;; c2" := (bind c1 (fun x => c2))
  (at level 100, c1 at next level, right associativity) : py_scope.
Notation "c1 ;;; c2" := (bind c1 (fun _ => c2))
  (at level 100, right associativity) : py_scope.
Open Scope py_scope.

(** [if b: c] without [else]. *)
Definition when (b : bool) (c : M unit) : M unit :=
  if b then c else ret tt.

(** [for x in xs: body(x)]. *)
Fixpoint for_each {A} (xs : list A) (body : A -> M unit) : M unit :=
  match xs with
  | [] => ret tt
  | x :: xs' => body x ;;; for_each xs' body
  end.

(** The event [o] reaches the console. *)
Definition emit (o : out) : M unit :=
  fun st =>
    (Return tt,
     {| files := files st; console := console st ++ [o]; calls := calls st |}).

(** The texts [run] hands to [rich.print] for an event: the f-strings of
    lines 149, 157-159, 167 and 171 and the argument of line 164, with
    names, values, sources and paths put in as they are. A traceback is
    not printed through [rich.print]. *)
Definition print_args (o : out) : list string :=
  match o with
  | Header h g =>
      ["[bold cyan] == " +:+ h +:+ " | " +:+ g +:+ " == [/bold cyan]"]
  | VarLine n v src =>
      ["[bold]" +:+ n +:+ "[/bold]: " +:+ v +:+ " - [italic]" +:+ src
       +:+ "[/italic]"]
  | FileLine f => [f]
  | DupHeader n original =>
      ["[bold]" +:+ n +:+ "[/bold]. Originally in: [italic]" +:+ original
       +:+ "[/italic] duplicated in:"]
  | DupLine dup deleted =>
      ["  * [italic]" +:+ dup +:+ "[/italic]";
       if deleted then "[bold red]DELETED[/bold red]" else ""]
  | Traceback _ => []
  end.

(** [rich.print(...)]: rich reads its arguments as console markup
    before it prints anything, and raises [MarkupError] on a text it
    cannot read (a closing tag that closes nothing, for one);
    [markup_error] says of which texts this is so. *)
Definition print (markup_error : string -> bool) (o : out) : M unit :=
  if existsb markup_error (print_args o) then raise MarkupError else emit o.

(** [console.print_exception(show_locals=True)] in the handler of
    [delete_var]. *)
Definition print_exception (e : exn) : M unit := emit (Traceback e).

(** ** File operations of [delete_var] and their failures

    The environment may make one of the file operations of a call fail:
    the [open(path, 'r')] / [readlines()] pair, the [open(path, 'w')],
    or the writing of the new content. A path absent from the file
    system always fails at [open(path, 'r')].

    Python buffers the writes of a text file: [fw.write] puts text in
    the buffer of [fw], and the buffer goes to the file when it is full
    and when [fw] is closed at the end of the [with] block. A failure of
    the device then leaves in the file the characters that had reached
    it, a prefix of the new content that may end inside a line, and
    [OSError] is raised, from a write or from the close. The loop does
    nothing but write, so it makes no difference to the state where in
    it the exception is raised; the model raises it at the close.
    [WriteFault n] is the failure that lets [n] characters through. *)

Inductive io_fault :=
| NoFault
| ReadFault
| OpenWriteFault
| WriteFault (n : nat).

Definition set_file (path content : string) (st : state) : state :=
  {| files := <[path := content]> (files st);
     console := console st;
     calls := calls st |}.

(** The first [n] characters of a text (all of it when it is shorter). *)
Fixpoint first_chars (n : nat) (s : string) : string :=
  match n, s with
  | S n', String c s' => String c (first_chars n' s')
  | _, _ => EmptyString
  end.

(** [with open(path, 'r') as fr: lines = fr.readlines()]. *)
Definition open_readlines (fault : io_fault) (path : string) : M (list string) :=
  fun st =>
    match files st !! path with
    | None => (Raise (FileNotFoundError path), st)
    | Some content =>
        match fault with
        | ReadFault => (Raise (OSError path), st)
        | _ => (Return (readlines content), st)
        end
    end.

(** [open(path, 'w')]: on success the file is empty. *)
Definition open_write (fault : io_fault) (path : string) : M unit :=
  fun st =>
    match fault with
    | OpenWriteFault => (Raise (OSError path), st)
    | _ => (Return tt, set_file path "" st)
    end.

(** [fw.write(line)]: the text joins what [fw] holds already. *)
Definition fw_write (linesep line : string) (pending : string) : string :=
  pending +:+ translate_newlines linesep line.

(** The loop [for line in lines] with its writes (source lines
    183-191); [var_found] is the flag on entry, [pending] the text given
    to [fw] so far; the result is the text given to [fw] at the end. *)
Fixpoint write_loop (linesep var : string) (var_found : bool)
    (lines : list string) (pending : string) : string :=
  match lines with
  | [] => pending
  | line :: rest =>
      let var_found :=
        if var_found then startswith_space_or_tab line else var_found in
      if startswith var line || var_found
      then write_loop linesep var true rest pending
      else write_loop linesep var var_found rest (fw_write linesep line pending)
  end.

(** The end of the inner [with] block: the text given to [fw] goes to
    the file, all of it or, under a failure, its first characters. *)
Definition close_write (fault : io_fault) (path pending : string) : M unit :=
  fun st =>
    match fault with
    | WriteFault n =>
        (Raise (OSError path), set_file path (first_chars n pending) st)
    | _ => (Return tt, set_file path pending st)
    end.

(** The body of the [try] block of [delete_var] (source lines
    179-191). *)
Definition delete_var_body (linesep : string) (fault : io_fault)
    (path var : string) : M unit :=
  lines <~ open_readlines fault path ;;;
  open_write fault path ;;;
  close_write fault path (write_loop linesep var false lines "").

(** [VariablesCLI.delete_var(path, var)] (source lines 173-193). *)
Definition delete_var (linesep : string) (fault : io_fault) (path var : string)
  : M unit :=
  try_except
    (delete_var_body linesep fault path var)
    print_exception.

(** ** [VariablesCLI.run] (source lines 128-171)

    The collaborators of [run] are the variables of the section. What
    comes before [get_hosts] ([super().run()], [_play_prereqs()]) is the
    CLI framework's and is not modelled; [variable_sources] and
    [file_occurrences] are taken to return. *)

Section Run.

(** [os.linesep]. *)
Variable os_linesep : string.
(** The fault the environment injects into the [i]-th call of
    [delete_var] of the run. *)
Variable io_faults : nat -> io_fault.
(** The texts on which [rich.print] raises [MarkupError] (the library
    rich is not part of the repository). *)
Variable markup_error : string -> bool.
(** [self.inventory.get_hosts(pattern=...)]. *)
Variable get_hosts : string -> list host_t.
(** [variable_sources(variable_manager=self.vm, host=..., var=...)],
    imported from [ansible_variables.utils.vars]; it may consult the
    files. *)
Variable variable_sources :
  gmap string string -> host_t -> option string -> list variable_t.
(** [variable.file_occurrences(loader=self.loader,
    check_duplicates=...)], of the same module; gives [(files, dups)]. *)
Variable file_occurrences :
  gmap string string -> variable_t -> option bool -> list string * list string.
(** [display.verbosity]. *)
Variable verbosity : Z.
Variable CLIARGS : cliargs.

(** A call of [delete_var] made by [run]: the call is recorded, then
    executed under the fault the environment has for it. *)
Definition call_delete_var (path var : string) : M unit :=
  fun st =>
    delete_var os_linesep (io_faults (length (calls st))) path var
      {| files := files st;
         console := console st;
         calls := calls st ++ [(path, var)] |}.

(** Source lines 166-171, for [dups] as returned by
    [file_occurrences]. *)
Definition report_duplicates (n : string) (dups : list string) : M unit :=
  let remove_duplicates := remove_duplicates CLIARGS in
  when (1 <? length dups)%nat
    (match dups with
     | [] => raise IndexError
     | dups_0 :: _ =>
         print markup_error (DupHeader n dups_0) ;;;
         for_each (drop 1 dups) (fun dup =>
           when (truthy remove_duplicates)
             (call_delete_var dup (n +:+ ":")) ;;;
           print markup_error (DupLine dup (truthy remove_duplicates)))
     end).

(** Body of [for variable in variable_sources(...)], lines 155-171. *)
Definition variable_body (v : variable_t) : M unit :=
  let check_duplicates := check_duplicates CLIARGS in
  when (bool_decide (name v ∉ INTERNAL_VARS))
    (when (negb (truthy check_duplicates))
       (print markup_error (VarLine (name v) (value v) (source_mapped v))) ;;;
     when ((1 <=? verbosity)%Z || truthy check_duplicates)
       (fun st =>
          let '(files_, dups) :=
            file_occurrences (files st) v check_duplicates in
          (when (1 <=? verbosity)%Z
             (for_each files_
                (fun ffile => print markup_error (FileLine ffile))) ;;;
           when (truthy check_duplicates)
             (report_duplicates (name v) dups)) st)).

(** [for host in hosts] with the local list [groups], lines 143-171. *)
Fixpoint hosts_loop (groups : list group) (hosts : list host_t) : M unit :=
  match hosts with
  | [] => ret tt
  | h :: rest =>
      match last (get_groups h) with
      | None => raise IndexError
      | Some host_external_group =>
          if bool_decide (host_external_group ∈ groups)
          then hosts_loop groups rest
          else
            print markup_error (Header (host_name h) host_external_group) ;;;
            (fun st =>
               for_each (variable_sources (files st) h (variable CLIARGS))
                 variable_body st) ;;;
            hosts_loop (groups ++ [host_external_group]) rest
      end
  end.

Definition run : M unit :=
  let hosts := get_hosts (host CLIARGS) in
  match hosts with
  | [] =>
      raise (AnsibleOptionsError
               "You must pass a single valid host to ansible-variables")
  | _ :: _ => hosts_loop [] hosts
  end.

End Run.

(** ** Notions of the specification

    These follow the words of the specification, not the code; the
    theorems below compare them with the code. *)

(** The two states of the remover's scan. *)
Inductive scan_state := OUTSIDE | INSIDE_BLOCK.

(** A line seen in [OUTSIDE]: a matching key line is dropped and opens a
    block, any other line is kept. *)
Definition outside_step (var line : string) : scan_state * list string :=
  if startswith var line then (INSIDE_BLOCK, []) else (OUTSIDE, [line]).

(** A line seen in [INSIDE_BLOCK]: an indented line is dropped, a line
    that is not indented ends the block and is treated as in [OUTSIDE]. *)
Definition machine_step (var : string) (s : scan_state) (line : string)
  : scan_state * list string :=
  match s with
  | OUTSIDE => outside_step var line
  | INSIDE_BLOCK =>
      if startswith_space_or_tab line then (INSIDE_BLOCK, [])
      else outside_step var line
  end.

(** The lines the two-state machine keeps. *)
Fixpoint machine (var : string) (s : scan_state) (lines : list string)
  : list string :=
  match lines with
  | [] => []
  | line :: rest =>
      let '(s', kept) := machine_step var s line in
      kept ++ machine var s' rest
  end.

(** The value of [var_found] that stands for each state. *)
Definition flag_of (s : scan_state) : bool :=
  match s with
  | OUTSIDE => false
  | INSIDE_BLOCK => true
  end.

(** Which iterations of the loop reach [fw.write]: [true] for a line
    that is written, [false] for one that is skipped. *)
Fixpoint kept_mask_from (var : string) (var_found : bool) (lines : list string)
  : list bool :=
  match lines with
  | [] => []
  | line :: rest =>
      let var_found' := fst (scan_step var var_found line) in
      negb var_found' :: kept_mask_from var var_found' rest
  end.

Definition kept_mask (var : string) (lines : list string) : list bool :=
  kept_mask_from var false lines.

(** Every line up to position [i] is indented. *)
Definition indented_upto (lines : list string) (i : nat) : Prop :=
  forall k line, (k <= i)%nat -> lines !! k = Some line ->
                 startswith_space_or_tab line = true.

(** Line [i] belongs to a block that defines [var]: some line [j] at or
    before it begins with [var], and every line after [j] up to [i] is
    indented. *)
Definition in_deleted_block (var : string) (lines : list string) (i : nat)
  : Prop :=
  exists j key,
    (j <= i)%nat /\ lines !! j = Some key /\ startswith var key = true /\
    forall k line, (j < k <= i)%nat -> lines !! k = Some line ->
                   startswith_space_or_tab line = true.

(** Line [i] is in a block that defines [var], or in the indented run
    that continues a block open before the first line. *)
Definition in_block_from (var_found : bool) (var : string)
    (lines : list string) (i : nat) : Prop :=
  (var_found = true /\ indented_upto lines i) \/ in_deleted_block var lines i.

(** Removal of the first block only, as the contract of the remover
    words it: the first line that begins with [var] goes, with the
    indented lines that follow it; all the rest stays. *)
Fixpoint skip_indented (lines : list string) : list string :=
  match lines with
  | [] => []
  | line :: rest =>
      if startswith_space_or_tab line then skip_indented rest else lines
  end.

Fixpoint delete_first_block (var : string) (lines : list string)
  : list string :=
  match lines with
  | [] => []
  | line :: rest =>
      if startswith var line then skip_indented rest
      else line :: delete_first_block var rest
  end.

(** The elements of a list that a mask of the same length marks [true],
    unchanged and in their order. *)
Fixpoint select {A} (mask : list bool) (l : list A) : list A :=
  match mask, l with
  | b :: mask', x :: l' =>
      if b then x :: select mask' l' else select mask' l'
  | _, _ => []
  end.

(** A text without carriage return: all its terminators are LF. *)
Fixpoint no_CR (s : string) : bool :=
  match s with
  | EmptyString => true
  | String c s' => negb (Ascii.eqb c CR) && no_CR s'
  end.

(** The variable an event names, if it names one. *)
Definition out_var_name (o : out) : option string :=
  match o with
  | VarLine n _ _ => Some n
  | DupHeader n _ => Some n
  | _ => None
  end.


(** Every run of [c] takes a state to one related to it by [R]. *)
Definition respects {A} (R : state -> state -> Prop) (c : M A) : Prop :=
  forall st, R st (snd (c st)).

(** The state changed in its files only. *)
Definition files_only (st st' : state) : Prop :=
  console st' = console st /\ calls st' = calls st.

(** The state changed in its console only. *)
Definition console_only (st st' : state) : Prop :=
  files st' = files st /\ calls st' = calls st.

(** The console grew by events that all satisfy [P]. *)
Definition prints_only (P : out -> Prop) (st st' : state) : Prop :=
  exists new, console st' = console st ++ new /\ Forall P new.

(** The events that report on a variable never name an internal one. *)
Definition names_no_internal (o : out) : Prop :=
  forall n, out_var_name o = Some n -> n ∉ INTERNAL_VARS.


(** What [variable_sources] yields, without the internal variables. *)
Definition without_internal
    (variable_sources :
       gmap string string -> host_t -> option string -> list variable_t)
  : gmap string string -> host_t -> option string -> list variable_t :=
  fun fs h var =>
    filter (fun v => name v ∉ INTERNAL_VARS) (variable_sources fs h var).

(** [rich.print] takes the event. *)
Definition printable (markup_error : string -> bool) (o : out) : bool :=
  negb (existsb markup_error (print_args o)).

(** The text [p] occurs in [s]. *)
Fixpoint contains (p s : string) : bool :=
  startswith p s
  || match s with
     | EmptyString => false
     | String _ s' => contains p s'
     end.

(** ** Constants of the examples *)

Definition nl : string := String LF EmptyString.
Definition crlf : string := String CR (String LF EmptyString).

(** The markup errors of the examples: of the texts [run] prints there,
    rich refuses those that hold the closing tag [[/x]], which closes
    nothing. *)
Definition rejects_closing_x (text : string) : bool := contains "[/x]" text.

(** A state with the given files, an empty console and no call yet. *)
Definition initial (fs : gmap string string) : state :=
  {| files := fs; console := []; calls := [] |}.

(** A file that defines [x] twice at top level. *)
Definition two_blocks : string :=
  "x: 1" +:+ nl +:+ "y: 2" +:+ nl +:+ "x: 3" +:+ nl.

(** The file of the block-boundary scenario, with one more key after
    [next_key]. *)
Definition app_port_file : string :=
  "app_port: 8080" +:+ nl +:+ "  proto: tcp" +:+ nl +:+ "  bind: any" +:+ nl
  +:+ "next_key: 1" +:+ nl +:+ "last_key: 2" +:+ nl.

(** The same scenario with a second [app_port] block after
    [next_key]. *)
Definition app_port_twice : string :=
  "app_port: 8080" +:+ nl +:+ "  proto: tcp" +:+ nl +:+ "  bind: any" +:+ nl
  +:+ "next_key: 1" +:+ nl +:+ "app_port: 9090" +:+ nl
  +:+ "  proto: udp" +:+ nl.

(** A file with CR LF terminators that does not define [x]. *)
Definition crlf_file : string := "a: 1" +:+ crlf +:+ "b: 2" +:+ crlf.

(** A file with CR LF terminators that defines [x] after another key. *)
Definition crlf_with_x : string := "keep: 1" +:+ crlf +:+ "x: 2" +:+ crlf.

(** A file with LF terminators: two keys, then [x]. *)
Definition three_keys : string :=
  "a: 1" +:+ nl +:+ "b: 2" +:+ nl +:+ "x: 3" +:+ nl.

(** [--check-duplicates --remove-duplicates] for host [web1]. *)
Definition both_options : cliargs :=
  {| host := "web1"; variable := None;
     check_duplicates := Some true; remove_duplicates := Some true |}.

(** [--remove-duplicates] alone. *)
Definition remove_only : cliargs :=
  {| host := "web1"; variable := None;
     check_duplicates := None; remove_duplicates := Some true |}.

(** An inventory of three hosts; [web1] and [web2] have the same last
    group. *)
Definition web1 : host_t := {| host_name := "web1"; get_groups := ["all"; "web"] |}.
Definition web2 : host_t := {| host_name := "web2"; get_groups := ["all"; "web"] |}.
Definition db1 : host_t := {| host_name := "db1"; get_groups := ["all"; "db"] |}.

Definition three_hosts (pattern : string) : list host_t := [web1; web2; db1].
Definition two_hosts (pattern : string) : list host_t := [web1; db1].
Definition no_host (pattern : string) : list host_t := [].

(** A resolver that yields [timeout] and the internal [groups] for every
    host, and a locator that finds every variable in the same two
    files. *)
Definition example_sources (fs : gmap string string) (h : host_t)
    (var : option string) : list variable_t :=
  [ {| name := "timeout"; value := "60"; source_mapped := "host_vars/web1" |};
    {| name := "groups"; value := "{}"; source_mapped := "internal" |} ].

Definition example_occurrences (fs : gmap string string) (v : variable_t)
    (check : option bool) : list string * list string :=
  (["host_vars/web1.yml"; "group_vars/all.yml"],
   ["host_vars/web1.yml"; "group_vars/all.yml"]).

Definition no_faults (i : nat) : io_fault := NoFault.

Definition example_files : gmap string string :=
  {[ "host_vars/web1.yml" := "timeout: 60" +:+ nl;
     "group_vars/all.yml" := "timeout: 30" +:+ nl +:+ "retries: 3" +:+ nl ]}.


(** ** Notions of the further properties *)

(** The character [c] does not occur in [s]. *)
Fixpoint lacks (c : ascii) (s : string) : bool :=
  match s with
  | EmptyString => true
  | String c' s' => negb (Ascii.eqb c' c) && lacks c s'
  end.

(** A line as [readlines] gives it when it has a terminator: a text
    free of LF and CR, then one LF. *)
Fixpoint terminated (s : string) : bool :=
  match s with
  | EmptyString => false
  | String c s' =>
      if Ascii.eqb c LF then
        match s' with
        | EmptyString => true
        | String _ _ => false
        end
      else negb (Ascii.eqb c CR) && terminated s'
  end.

(** A last line without terminator: not empty, free of LF and CR. *)
Definition unterminated (s : string) : bool :=
  match s with
  | EmptyString => false
  | String _ _ => lacks LF s && lacks CR s
  end.

(** The lines of a text file as a program reads them: every line has
    its terminator, but for the last one, which may lack it. *)
Fixpoint file_lines (lines : list string) : bool :=
  match lines with
  | [] => true
  | line :: rest =>
      match rest with
      | [] => terminated line || unterminated line
      | _ :: _ => terminated line && file_lines rest
      end
  end.

(** The state went on: console and call history grew at their end, and
    the same paths hold files. *)
Definition goes_on (st st' : state) : Prop :=
  console st `prefix_of` console st' /\
  calls st `prefix_of` calls st' /\
  dom (files st') = dom (files st).

(** The call history grew by [new] calls that all satisfy [P], and no
    file changed but those the new calls name. *)
Definition calls_only (P : string * string -> Prop) (st st' : state) : Prop :=
  exists new,
    calls st' = calls st ++ new /\ Forall P new /\
    forall p, p ∉ new.*1 -> files st' !! p = files st !! p.

(** A call that asks for the removal of a variable outside the
    deny-list, under its name followed by a colon. *)
Definition removes_user_variable (c : string * string) : Prop :=
  exists n, c.2 = n +:+ ":" /\ n ∉ INTERNAL_VARS.

(** The computation raises no exception but those of [ok]. *)
Definition raises_only (ok : exn -> Prop) (c : M unit) : Prop :=
  forall st,
    match fst (c st) with
    | Return _ => True
    | Raise e => ok e
    end.

(** The path [p] holds after what it held before. *)
Definition keeps_file (p : string) (st st' : state) : Prop :=
  files st' !! p = files st !! p.

Definition is_var_line (o : out) : bool :=
  match o with
  | VarLine _ _ _ => true
  | _ => false
  end.

(** The groups of the host headers of a console, in order. *)
Fixpoint header_groups (c : list out) : list group :=
  match c with
  | [] => []
  | Header _ g :: c' => g :: header_groups c'
  | _ :: c' => header_groups c'
  end.

(** [host.get_groups()] is empty. *)
Definition no_groups (h : host_t) : bool :=
  match get_groups h with
  | [] => true
  | _ :: _ => false
  end.

(** What [run] prints for a variable when duplicates are not checked:
    its value line, then under [-v] the files that define it. *)
Definition plain_lines
    (file_occurrences :
       gmap string string -> variable_t -> option bool ->
       list string * list string)
    (verbosity : Z) (check : option bool) (fs : gmap string string)
    (v : variable_t) : list out :=
  VarLine (name v) (value v) (source_mapped v)
  :: (if (1 <=? verbosity)%Z
      then map FileLine (file_occurrences fs v check).1
      else []).

(** A host without group, and inventories that hold it. *)
Definition lone : host_t := {| host_name := "lone"; get_groups := [] |}.
Definition hosts_with_lone (pattern : string) : list host_t := [web1; lone; db1].
Definition only_web1 (pattern : string) : list host_t := [web1].

(** No option, for host [web1]. *)
Definition no_option : cliargs :=
  {| host := "web1"; variable := None;
     check_duplicates := None; remove_duplicates := None |}.

(** A locator that finds nothing. *)
Definition no_occurrences (fs : gmap string string) (v : variable_t)
    (check : option bool) : list string * list string := ([], []).

(** * Properties *)

(** ** The scan *)

Lemma scan_step_machine_step var s line :
  scan_step var (flag_of s) line =
  (flag_of (fst (machine_step var s line)), snd (machine_step var s line)).
Proof.
  unfold scan_step, machine_step, outside_step.
  destruct s; simpl.
  - destruct (startswith var line); reflexivity.
  - destruct (startswith_space_or_tab line); simpl.
    + rewrite orb_true_r. reflexivity.
    + rewrite orb_false_r. destruct (startswith var line); reflexivity.
Qed.

Lemma scan_from_machine var s lines :
  scan_from var (flag_of s) lines = machine var s lines.
Proof.
  revert s. induction lines as [|line rest IH]; intros s; simpl; [reflexivity|].
  rewrite scan_step_machine_step.
  destruct (machine_step var s line) as [s' kept]; simpl.
  rewrite IH. reflexivity.
Qed.

(** One iteration, in closed form: the line is skipped when it begins
    with [var], or when the flag is set and the line is indented. *)
Lemma scan_step_eq var b line :
  scan_step var b line =
  let skipped := startswith var line || (b && startswith_space_or_tab line) in
  (skipped, if skipped then [] else [line]).
Proof.
  unfold scan_step.
  destruct b, (startswith var line), (startswith_space_or_tab line); reflexivity.
Qed.

Lemma scan_from_cons var b line rest :
  scan_from var b (line :: rest) =
  (if startswith var line || (b && startswith_space_or_tab line)
   then [] else [line])
  ++ scan_from var (startswith var line || (b && startswith_space_or_tab line))
       rest.
Proof. cbn [scan_from]. rewrite scan_step_eq. reflexivity. Qed.

Lemma scan_from_select var b lines :
  scan_from var b lines = select (kept_mask_from var b lines) lines.
Proof.
  revert b. induction lines as [|line rest IH]; intros b; simpl; [reflexivity|].
  rewrite scan_step_eq. simpl.
  destruct (startswith var line || b && startswith_space_or_tab line);
    simpl; rewrite IH; reflexivity.
Qed.

Lemma kept_mask_from_length var b lines :
  length (kept_mask_from var b lines) = length lines.
Proof.
  revert b. induction lines as [|line rest IH]; intros b; simpl; [reflexivity|].
  rewrite IH. reflexivity.
Qed.

(** No line that begins with [var] is ever written. *)
Lemma scan_from_no_key var b lines :
  Forall (fun line => startswith var line = false) (scan_from var b lines).
Proof.
  revert b. induction lines as [|line rest IH]; intros b; simpl; [constructor|].
  rewrite scan_step_eq. simpl.
  destruct (startswith var line) eqn:Hkey; simpl; [apply IH|].
  destruct (b && startswith_space_or_tab line); simpl; [apply IH|].
  constructor; [exact Hkey | apply IH].
Qed.

(** Without a key line the scan writes every line. *)
Lemma scan_no_key var lines :
  Forall (fun line => startswith var line = false) lines ->
  scan var lines = lines.
Proof.
  unfold scan. induction 1 as [|line rest Hkey _ IH]; simpl; [reflexivity|].
  rewrite scan_step_eq, Hkey. simpl. rewrite IH. reflexivity.
Qed.

Lemma scan_idempotent var lines : scan var (scan var lines) = scan var lines.
Proof. apply scan_no_key, scan_from_no_key. Qed.

(** Inside a block, indented lines are skipped up to the first line
    that is not indented. *)
Lemma scan_from_skip_indented var lines :
  scan_from var true lines = scan var (skip_indented lines).
Proof.
  induction lines as [|line rest IH]; [reflexivity|].
  cbn [skip_indented scan_from]. rewrite scan_step_eq. cbn zeta.
  destruct (startswith_space_or_tab line) eqn:Hind.
  - rewrite orb_true_r. exact IH.
  - unfold scan. cbn [scan_from]. rewrite scan_step_eq. cbn zeta.
    rewrite Hind. reflexivity.
Qed.

(** The first block goes, and the scan goes on after it as from the
    start. *)
Lemma scan_first_block var before key rest :
  Forall (fun line => startswith var line = false) before ->
  startswith var key = true ->
  scan var (before ++ key :: rest) = before ++ scan var (skip_indented rest).
Proof.
  intros Hbefore Hkey. unfold scan.
  induction Hbefore as [|line before' Hline _ IH]; simpl.
  - rewrite scan_step_eq, Hkey. simpl. apply scan_from_skip_indented.
  - rewrite scan_step_eq, Hline. simpl. rewrite IH. reflexivity.
Qed.

Lemma delete_first_block_eq var before key rest :
  Forall (fun line => startswith var line = false) before ->
  startswith var key = true ->
  delete_first_block var (before ++ key :: rest) = before ++ skip_indented rest.
Proof.
  intros Hbefore Hkey.
  induction Hbefore as [|line before' Hline _ IH]; simpl.
  - rewrite Hkey. reflexivity.
  - rewrite Hline, IH. reflexivity.
Qed.

(** A blank line at column 0 ends the block: it is kept, and so is the
    indented line after it. *)
Example blank_line_ends_block :
  scan "x:" ["x: 1" +:+ nl; "  a" +:+ nl; nl; "  b" +:+ nl] = [nl; "  b" +:+ nl].
Proof. reflexivity. Qed.

(** A block may run to the end of the file; a file that holds only
    [foo: bar] is left empty. *)
Example block_to_end_of_file :
  scan "x:" ["y: 0" +:+ nl; "x:" +:+ nl; "  a" +:+ nl] = ["y: 0" +:+ nl] /\
  rewritten nl "foo:" "foo: bar" = "".
Proof. split; reflexivity. Qed.

(** *** The lines skipped are the lines of the blocks *)

Lemma indented_upto_0 l ls :
  indented_upto (l :: ls) 0 <-> startswith_space_or_tab l = true.
Proof.
  unfold indented_upto. split.
  - intros H. apply (H 0%nat); [lia | reflexivity].
  - intros H k line Hk Hl. assert (k = 0%nat) as -> by lia.
    simpl in Hl. congruence.
Qed.

Lemma indented_upto_S l ls i :
  indented_upto (l :: ls) (S i) <->
  startswith_space_or_tab l = true /\ indented_upto ls i.
Proof.
  unfold indented_upto. split.
  - intros H. split.
    + apply (H 0%nat); [lia | reflexivity].
    + intros k line Hk Hl. apply (H (S k)); [lia | exact Hl].
  - intros [H0 H] [|k] line Hk Hl.
    + simpl in Hl. congruence.
    + apply (H k); [lia | exact Hl].
Qed.

Lemma in_deleted_block_0 var l ls :
  in_deleted_block var (l :: ls) 0 <-> startswith var l = true.
Proof.
  unfold in_deleted_block. split.
  - intros (j & key & Hj & Hkey & Hstart & _).
    assert (j = 0%nat) as -> by lia. simpl in Hkey. congruence.
  - intros H. exists 0%nat, l. repeat split; [lia | exact H |].
    intros k line Hk. lia.
Qed.

Lemma in_deleted_block_S var l ls i :
  in_deleted_block var (l :: ls) (S i) <->
  in_deleted_block var ls i \/
  (startswith var l = true /\ indented_upto ls i).
Proof.
  unfold in_deleted_block, indented_upto. split.
  - intros ([|j] & key & Hj & Hkey & Hstart & Hind).
    + right. simpl in Hkey. split; [congruence|].
      intros k line Hk Hl. apply (Hind (S k)); [lia | exact Hl].
    + left. exists j, key. repeat split; [lia | exact Hkey | exact Hstart |].
      intros k line Hk Hl. apply (Hind (S k)); [lia | exact Hl].
  - intros [(j & key & Hj & Hkey & Hstart & Hind) | [Hstart Hind]].
    + exists (S j), key. repeat split; [lia | exact Hkey | exact Hstart |].
      intros [|k] line Hk Hl; [lia|]. apply (Hind k); [lia | exact Hl].
    + exists 0%nat, l. repeat split; [lia | exact Hstart |].
      intros [|k] line Hk Hl; [lia|]. apply (Hind k); [lia | exact Hl].
Qed.

Lemma kept_mask_from_spec var lines b i :
  (i < length lines)%nat ->
  kept_mask_from var b lines !! i = Some false <-> in_block_from b var lines i.
Proof.
  revert b i. induction lines as [|l ls IH]; intros b i Hi; [simpl in Hi; lia|].
  cbn [kept_mask_from]. rewrite scan_step_eq. cbn [fst].
  unfold in_block_from. destruct i as [|i].
  - rewrite indented_upto_0, in_deleted_block_0. cbn [lookup list_lookup].
    destruct b, (startswith var l), (startswith_space_or_tab l); simpl;
      split; try tauto; try congruence; intros [[? ?]|?]; congruence.
  - rewrite indented_upto_S, in_deleted_block_S.
    change ((?x :: ?m) !! S i) with (m !! i).
    rewrite IH by (simpl in Hi; lia). unfold in_block_from.
    destruct b, (startswith var l), (startswith_space_or_tab l); simpl;
      split; try tauto; intuition congruence.
Qed.

(** The written lines are the lines outside the blocks, as they were
    read and in their order. *)
Lemma scan_kept_mask var lines :
  length (kept_mask var lines) = length lines /\
  scan var lines = select (kept_mask var lines) lines /\
  forall i, (i < length lines)%nat ->
    kept_mask var lines !! i = Some false <-> in_deleted_block var lines i.
Proof.
  split; [apply kept_mask_from_length|].
  split; [apply scan_from_select|].
  intros i Hi. unfold kept_mask. rewrite kept_mask_from_spec by exact Hi.
  unfold in_block_from. split; [intros [[? _]|?]; [discriminate | assumption] | tauto].
Qed.

(** ** The text layer *)

Lemma append_cons c s t : String c s +:+ t = String c (s +:+ t).
Proof. reflexivity. Qed.

Lemma append_nil_r s : s +:+ "" = s.
Proof. induction s as [|c s IH]; [reflexivity|]. rewrite append_cons, IH. reflexivity. Qed.

Lemma append_assoc s t u : (s +:+ t) +:+ u = s +:+ (t +:+ u).
Proof.
  induction s as [|c s IH]; [reflexivity|].
  rewrite !append_cons, IH. reflexivity.
Qed.

Lemma concat_cons (line : string) (lines : list string) :
  String.concat "" (line :: lines) = line +:+ String.concat "" lines.
Proof.
  destruct lines as [|l ls]; simpl; [symmetry; apply append_nil_r | reflexivity].
Qed.

Lemma concat_app (l1 l2 : list string) :
  String.concat "" (l1 ++ l2) = String.concat "" l1 +:+ String.concat "" l2.
Proof.
  induction l1 as [|line l1 IH]; [reflexivity|].
  rewrite <- app_comm_cons, !concat_cons, IH, append_assoc. reflexivity.
Qed.

(** A text without carriage return is read as it is. *)
Lemma universal_newlines_no_CR s : no_CR s = true -> universal_newlines s = s.
Proof.
  induction s as [|c s IH]; [reflexivity|]. simpl.
  destruct (Ascii.eqb c CR); simpl; [discriminate|].
  intros H. rewrite IH by exact H. reflexivity.
Qed.

(** Cutting a text into lines loses nothing. *)
Lemma concat_split_keepends s : String.concat "" (split_keepends s) = s.
Proof.
  induction s as [|c s IH]; [reflexivity|]. cbn [split_keepends].
  destruct (Ascii.eqb_spec c LF) as [->|Hc].
  - rewrite concat_cons, IH. reflexivity.
  - destruct (split_keepends s) as [|l ls].
    + simpl in IH. subst s. reflexivity.
    + rewrite concat_cons in IH. rewrite concat_cons, append_cons, IH. reflexivity.
Qed.

(** Where [os.linesep] is LF, [fw.write] writes its argument as it is. *)
Lemma translate_newlines_nl s : translate_newlines nl s = s.
Proof.
  induction s as [|c s IH]; [reflexivity|]. simpl.
  destruct (Ascii.eqb_spec c LF) as [->|Hc]; rewrite IH; reflexivity.
Qed.

Lemma written_text_nl lines : written_text nl lines = String.concat "" lines.
Proof.
  unfold written_text. f_equal.
  induction lines as [|l ls IH]; [reflexivity|].
  simpl. rewrite translate_newlines_nl, IH. reflexivity.
Qed.

Lemma written_text_cons linesep line lines :
  written_text linesep (line :: lines) =
  translate_newlines linesep line +:+ written_text linesep lines.
Proof. unfold written_text. simpl map. apply concat_cons. Qed.

(** A text without carriage return and without key line is rewritten
    to itself where [os.linesep] is LF. *)
Lemma rewritten_no_key var content :
  no_CR content = true ->
  Forall (fun line => startswith var line = false) (readlines content) ->
  rewritten nl var content = content.
Proof.
  intros Hcr Hkey. unfold rewritten.
  rewrite scan_no_key by exact Hkey.
  rewrite written_text_nl. unfold readlines.
  rewrite universal_newlines_no_CR by exact Hcr.
  apply concat_split_keepends.
Qed.

(** ** File operations *)

Lemma set_file_set_file path c1 c2 st :
  set_file path c2 (set_file path c1 st) = set_file path c2 st.
Proof. unfold set_file. simpl. rewrite insert_insert_eq. reflexivity. Qed.

Lemma set_file_id path c st :
  files st !! path = Some c -> set_file path c st = st.
Proof.
  intros H. destruct st as [fs con cs]. unfold set_file. simpl in *.
  rewrite insert_id by exact H. reflexivity.
Qed.

Lemma files_set_file path c st : files (set_file path c st) = <[path := c]> (files st).
Proof. reflexivity. Qed.

(** The loop gives [fw] the text of the lines of the scan, in order. *)
Lemma write_loop_scan linesep var b lines pending :
  write_loop linesep var b lines pending =
  pending +:+ written_text linesep (scan_from var b lines).
Proof.
  revert b pending. induction lines as [|line rest IH]; intros b pending.
  - cbn. symmetry. apply append_nil_r.
  - cbn [write_loop]. rewrite scan_from_cons.
    replace (if b then startswith_space_or_tab line else b)
      with (b && startswith_space_or_tab line) by (destruct b; reflexivity).
    destruct (startswith var line || b && startswith_space_or_tab line) eqn:Hskip.
    + cbn [app]. apply IH.
    + apply orb_false_elim in Hskip as [_ ->]. cbn [app].
      rewrite IH. unfold fw_write.
      change ([line] ++ scan_from var false rest)
        with (line :: scan_from var false rest).
      rewrite written_text_cons, append_assoc. reflexivity.
Qed.

Lemma delete_var_body_missing linesep fault path var st :
  files st !! path = None ->
  delete_var_body linesep fault path var st = (Raise (FileNotFoundError path), st).
Proof.
  intros H. unfold delete_var_body, bind, open_readlines. rewrite H. reflexivity.
Qed.

(** The [try] block on a file that exists, by the failure met. *)
Lemma delete_var_body_eq linesep fault path var st content :
  files st !! path = Some content ->
  delete_var_body linesep fault path var st =
  match fault with
  | ReadFault | OpenWriteFault => (Raise (OSError path), st)
  | WriteFault n =>
      (Raise (OSError path),
       set_file path (first_chars n (rewritten linesep var content)) st)
  | NoFault => (Return tt, set_file path (rewritten linesep var content) st)
  end.
Proof.
  intros H. unfold delete_var_body, bind at 1, open_readlines. rewrite H.
  destruct fault as [| | |n]; try reflexivity.
  - unfold bind, open_write, close_write.
    rewrite write_loop_scan, set_file_set_file. reflexivity.
  - unfold bind, open_write, close_write.
    rewrite write_loop_scan, set_file_set_file. reflexivity.
Qed.

(** The [try] block touches the files only. *)
Lemma delete_var_body_files_only linesep fault path var :
  respects files_only (delete_var_body linesep fault path var).
Proof.
  intros st. destruct (files st !! path) as [content|] eqn:H.
  - rewrite (delete_var_body_eq _ _ _ _ _ _ H).
    destruct fault; split; reflexivity.
  - rewrite delete_var_body_missing by exact H. split; reflexivity.
Qed.

(** It touches no file but [path]. *)
Lemma delete_var_body_other_files linesep fault path var st p :
  p <> path ->
  files (snd (delete_var_body linesep fault path var st)) !! p = files st !! p.
Proof.
  intros Hp. destruct (files st !! path) as [content|] eqn:H.
  - rewrite (delete_var_body_eq _ _ _ _ _ _ H).
    destruct fault; simpl; try reflexivity; apply lookup_insert_ne; congruence.
  - rewrite delete_var_body_missing by exact H. reflexivity.
Qed.

(** [delete_var] in terms of its [try] block: a raised exception ends as
    a traceback on the console, and the call returns in every case. *)
Lemma delete_var_eq linesep fault path var st :
  delete_var linesep fault path var st =
  match delete_var_body linesep fault path var st with
  | (Return _, st') => (Return tt, st')
  | (Raise e, st') =>
      (Return tt,
       {| files := files st';
          console := console st ++ [Traceback e];
          calls := calls st |})
  end.
Proof.
  unfold delete_var, try_except.
  pose proof (delete_var_body_files_only linesep fault path var st) as [Hc Hk].
  destruct (delete_var_body linesep fault path var st) as [[[]|e] st']; simpl in *.
  - reflexivity.
  - unfold print_exception, emit. rewrite Hc, Hk. reflexivity.
Qed.

Lemma delete_var_returns linesep fault path var st :
  fst (delete_var linesep fault path var st) = Return tt.
Proof.
  rewrite delete_var_eq.
  destruct (delete_var_body linesep fault path var st) as [[[]|e] st']; reflexivity.
Qed.

(** ** Effects of computations *)

Section Respects.

Variable R : state -> state -> Prop.
Hypothesis R_refl : forall st, R st st.
Hypothesis R_trans : forall st1 st2 st3, R st1 st2 -> R st2 st3 -> R st1 st3.

Lemma respects_ret {A} (a : A) : respects R (ret a).
Proof. intros st. apply R_refl. Qed.

Lemma respects_raise {A} e : respects R (@raise A e).
Proof. intros st. apply R_refl. Qed.

Lemma respects_bind {A B} (c : M A) (k : A -> M B) :
  respects R c -> (forall a, respects R (k a)) -> respects R (bind c k).
Proof.
  intros Hc Hk st. unfold bind. specialize (Hc st).
  destruct (c st) as [[a|e] st']; simpl in *; [|exact Hc].
  eapply R_trans; [exact Hc | apply Hk].
Qed.

Lemma respects_when b c : respects R c -> respects R (when b c).
Proof. intros Hc. destruct b; [exact Hc | apply respects_ret]. Qed.

Lemma respects_for_each {A} (xs : list A) body :
  (forall x, respects R (body x)) -> respects R (for_each xs body).
Proof.
  intros Hbody. induction xs as [|x xs IH]; simpl.
  - apply respects_ret.
  - apply respects_bind; [apply Hbody | intros _; exact IH].
Qed.

Lemma respects_try_except {A} (c : M A) h :
  respects R c -> (forall e, respects R (h e)) -> respects R (try_except c h).
Proof.
  intros Hc Hh st. unfold try_except. specialize (Hc st).
  destruct (c st) as [[a|e] st']; simpl in *; [exact Hc|].
  eapply R_trans; [exact Hc | apply Hh].
Qed.

End Respects.

Lemma console_only_refl st : console_only st st.
Proof. split; reflexivity. Qed.

Lemma console_only_trans st1 st2 st3 :
  console_only st1 st2 -> console_only st2 st3 -> console_only st1 st3.
Proof. intros [? ?] [? ?]. split; congruence. Qed.

Lemma prints_only_refl P st : prints_only P st st.
Proof. exists []. split; [symmetry; apply app_nil_r | constructor]. Qed.

Lemma prints_only_trans P st1 st2 st3 :
  prints_only P st1 st2 -> prints_only P st2 st3 -> prints_only P st1 st3.
Proof.
  intros (n1 & H1 & F1) (n2 & H2 & F2). exists (n1 ++ n2). split.
  - rewrite H2, H1, app_assoc. reflexivity.
  - apply Forall_app. split; assumption.
Qed.

(** [rich.print] either raises and prints nothing, or prints its
    event. *)
Lemma print_cases markup_error o st :
  print markup_error o st = (Raise MarkupError, st) /\
    printable markup_error o = false \/
  print markup_error o st = emit o st /\ printable markup_error o = true.
Proof.
  unfold print, printable.
  destruct (existsb markup_error (print_args o)); [left | right];
    split; reflexivity.
Qed.

Lemma respects_print (R : state -> state -> Prop) markup_error o :
  (forall st, R st st) -> respects R (emit o) ->
  respects R (print markup_error o).
Proof.
  intros Hrefl Hemit st.
  destruct (print_cases markup_error o st) as [[-> _]|[-> _]];
    [apply Hrefl | apply Hemit].
Qed.

Lemma respects_print_console_only markup_error o :
  respects console_only (print markup_error o).
Proof.
  apply respects_print; [exact console_only_refl|].
  intros st. split; reflexivity.
Qed.

Lemma respects_print_prints_only (P : out -> Prop) markup_error o :
  P o -> respects (prints_only P) (print markup_error o).
Proof.
  intros Ho. apply respects_print; [exact (prints_only_refl P)|].
  intros st. exists [o]. split; [reflexivity | repeat constructor; exact Ho].
Qed.

(** Side conditions of the lemmas above: the relation at hand is
    reflexive and transitive. *)
Ltac preorder :=
  first [ exact console_only_refl | exact console_only_trans
        | exact (prints_only_refl _) | exact (prints_only_trans _) ].

(** ** The loops of [run] *)

Section RunProperties.

Context (os_linesep : string) (io_faults : nat -> io_fault).
Context (markup_error : string -> bool).
Context (get_hosts : string -> list host_t).
Context (variable_sources :
           gmap string string -> host_t -> option string -> list variable_t).
Context (file_occurrences :
           gmap string string -> variable_t -> option bool ->
           list string * list string).
Context (verbosity : Z) (CLIARGS : cliargs).

Local Abbreviation call_delete_var' := (call_delete_var os_linesep io_faults).
Local Abbreviation report_duplicates' :=
  (report_duplicates os_linesep io_faults markup_error CLIARGS).
Local Abbreviation variable_body' :=
  (variable_body os_linesep io_faults markup_error file_occurrences verbosity CLIARGS).
Local Abbreviation hosts_loop' vs :=
  (hosts_loop os_linesep io_faults markup_error vs file_occurrences verbosity CLIARGS).

(** A call of [delete_var] from [run] returns, is recorded, and prints
    at most a traceback. *)
Lemma call_delete_var_spec path var st :
  exists st',
    call_delete_var' path var st = (Return tt, st') /\
    calls st' = calls st ++ [(path, var)] /\
    (console st' = console st \/
     exists e, console st' = console st ++ [Traceback e]).
Proof.
  unfold call_delete_var. rewrite delete_var_eq.
  match goal with
  | |- context [delete_var_body ?l ?f ?p ?v ?s] =>
      pose proof (delete_var_body_files_only l f p v s) as [Hc Hk];
      destruct (delete_var_body l f p v s) as [[[]|e] st']
  end; simpl in *.
  - exists st'. auto.
  - eexists. split; [reflexivity|]. simpl. eauto.
Qed.

Lemma respects_call_delete_var_prints P path var :
  (forall e, P (Traceback e)) ->
  respects (prints_only P) (call_delete_var' path var).
Proof.
  intros HP st.
  destruct (call_delete_var_spec path var st) as (st' & -> & _ & [H|[e H]]);
    simpl.
  - exists []. split; [rewrite app_nil_r; exact H | constructor].
  - exists [Traceback e]. split; [exact H | repeat constructor; apply HP].
Qed.

(** *** Only the console changes unless both options are set *)

Lemma report_duplicates_console_only n dups :
  truthy (remove_duplicates CLIARGS) = false ->
  respects console_only (report_duplicates' n dups).
Proof.
  intros Hrm. unfold report_duplicates. rewrite Hrm.
  apply respects_when; [preorder.. |].
  destruct dups as [|dups_0 rest]; [apply respects_raise; preorder|].
  apply respects_bind; [preorder.. | apply respects_print_console_only |].
  intros _. apply respects_for_each; [preorder.. |].
  intros dup. apply respects_bind; [preorder.. | apply respects_ret; preorder |].
  intros _. apply respects_print_console_only.
Qed.

Lemma variable_body_console_only v :
  truthy (check_duplicates CLIARGS) = false \/
  truthy (remove_duplicates CLIARGS) = false ->
  respects console_only (variable_body' v).
Proof.
  intros Hopt. unfold variable_body.
  apply respects_when; [preorder.. |].
  apply respects_bind; [preorder.. | |].
  - apply respects_when; [preorder.. |]. apply respects_print_console_only.
  - intros _. apply respects_when; [preorder.. |].
    intros st.
    destruct (file_occurrences (files st) v (check_duplicates CLIARGS))
      as [files_ dups].
    apply respects_bind; [preorder.. | |].
    + apply respects_when; [preorder.. |].
      apply respects_for_each; [preorder.. |].
      intros ffile. apply respects_print_console_only.
    + intros _. destruct Hopt as [Hck|Hrm].
      * rewrite Hck. apply respects_ret; preorder.
      * apply respects_when; [preorder.. |].
        apply report_duplicates_console_only, Hrm.
Qed.

Lemma hosts_loop_console_only groups hosts :
  truthy (check_duplicates CLIARGS) = false \/
  truthy (remove_duplicates CLIARGS) = false ->
  respects console_only (hosts_loop' variable_sources groups hosts).
Proof.
  intros Hopt. revert groups.
  induction hosts as [|h rest IH]; intros groups; simpl.
  - apply respects_ret; preorder.
  - destruct (last (get_groups h)) as [g|]; [|apply respects_raise; preorder].
    destruct (bool_decide (g ∈ groups)); [apply IH|].
    apply respects_bind; [preorder.. | apply respects_print_console_only |].
    intros _. apply respects_bind; [preorder.. | |].
    + intros st. apply respects_for_each; [preorder.. |].
      intros v. apply variable_body_console_only, Hopt.
    + intros _. apply IH.
Qed.

(** *** Internal variables *)

Lemma variable_body_internal v st :
  name v ∈ INTERNAL_VARS -> variable_body' v st = (Return tt, st).
Proof.
  intros Hin. unfold variable_body.
  rewrite bool_decide_eq_false_2 by (intros Hn; exact (Hn Hin)).
  reflexivity.
Qed.

Lemma for_each_without_internal vs st :
  for_each vs variable_body' st =
  for_each (filter (fun v => name v ∉ INTERNAL_VARS) vs) variable_body' st.
Proof.
  revert st. induction vs as [|v vs IH]; intros st; [reflexivity|].
  destruct (decide (name v ∈ INTERNAL_VARS)) as [Hin|Hout].
  - rewrite filter_cons_False by (intros Hn; exact (Hn Hin)).
    cbn [for_each]. unfold bind at 1.
    rewrite variable_body_internal by exact Hin. apply IH.
  - rewrite filter_cons_True by exact Hout.
    cbn [for_each]. unfold bind.
    destruct (variable_body' v st) as [[[]|e] st']; [apply IH | reflexivity].
Qed.

Lemma hosts_loop_without_internal groups hosts st :
  hosts_loop' variable_sources groups hosts st =
  hosts_loop' (without_internal variable_sources) groups hosts st.
Proof.
  revert groups st. induction hosts as [|h rest IH]; intros groups st;
    [reflexivity|].
  cbn [hosts_loop].
  destruct (last (get_groups h)) as [g|]; [|reflexivity].
  destruct (bool_decide (g ∈ groups)); [apply IH|].
  unfold bind at 1 3.
  destruct (print markup_error (Header (host_name h) g) st) as [[[]|e] st1];
    [|reflexivity].
  unfold bind at 1 2. unfold without_internal at 1.
  rewrite for_each_without_internal.
  match goal with
  | |- context [for_each ?l ?b st1] => destruct (for_each l b st1) as [[[]|e] st2]
  end; [apply IH | reflexivity].
Qed.

Lemma report_duplicates_names n dups :
  n ∉ INTERNAL_VARS ->
  respects (prints_only names_no_internal) (report_duplicates' n dups).
Proof.
  intros Hn. unfold report_duplicates.
  apply respects_when; [preorder.. |].
  destruct dups as [|dups_0 rest]; [apply respects_raise; preorder|].
  apply respects_bind; [preorder.. | |].
  { apply respects_print_prints_only. intros m [= <-]. exact Hn. }
  intros _. apply respects_for_each; [preorder.. |].
  intros dup. apply respects_bind; [preorder.. | |].
  - apply respects_when; [preorder.. |].
    apply respects_call_delete_var_prints. intros e m [=].
  - intros _. apply respects_print_prints_only. intros m [=].
Qed.

Lemma variable_body_names v :
  respects (prints_only names_no_internal) (variable_body' v).
Proof.
  unfold variable_body. case_bool_decide as Hn;
    [|apply respects_ret; preorder].
  cbn [when].
  apply respects_bind; [preorder.. | |].
  - apply respects_when; [preorder.. |].
    apply respects_print_prints_only. intros m [= <-]. exact Hn.
  - intros _. apply respects_when; [preorder.. |].
    intros st.
    destruct (file_occurrences (files st) v (check_duplicates CLIARGS))
      as [files_ dups].
    apply respects_bind; [preorder.. | |].
    + apply respects_when; [preorder.. |].
      apply respects_for_each; [preorder.. |].
      intros ffile. apply respects_print_prints_only. intros m [=].
    + intros _. apply respects_when; [preorder.. |].
      apply report_duplicates_names, Hn.
Qed.

Lemma hosts_loop_names groups hosts :
  respects (prints_only names_no_internal)
    (hosts_loop' variable_sources groups hosts).
Proof.
  revert groups. induction hosts as [|h rest IH]; intros groups; simpl.
  - apply respects_ret; preorder.
  - destruct (last (get_groups h)) as [g|]; [|apply respects_raise; preorder].
    destruct (bool_decide (g ∈ groups)); [apply IH|].
    apply respects_bind; [preorder.. | |].
    { apply respects_print_prints_only. intros m [=]. }
    intros _. apply respects_bind; [preorder.. | |].
    + intros st. apply respects_for_each; [preorder.. |].
      intros v. apply variable_body_names.
    + intros _. apply IH.
Qed.

(** *** Hosts that share their last group *)

Lemma hosts_loop_skip groups before h after g st :
  last (get_groups h) = Some g ->
  g ∈ groups \/ (exists h', h' ∈ before /\ last (get_groups h') = Some g) ->
  hosts_loop' variable_sources groups (before ++ h :: after) st =
  hosts_loop' variable_sources groups (before ++ after) st.
Proof.
  intros Hg. revert groups st.
  induction before as [|a before IH]; intros groups st Hseen.
  - destruct Hseen as [Hin|(h' & Hh' & _)]; [|inversion Hh'].
    cbn [app hosts_loop]. rewrite Hg.
    rewrite bool_decide_eq_true_2 by exact Hin. reflexivity.
  - rewrite <- !app_comm_cons. cbn [hosts_loop].
    destruct (last (get_groups a)) as [ga|] eqn:Hga; [|reflexivity].
    case_bool_decide as Hin.
    + apply IH. destruct Hseen as [?|(h' & Hh' & Hl)]; [left; assumption|].
      apply elem_of_cons in Hh' as [->|Hh'].
      * left. congruence.
      * right. eauto.
    + unfold bind at 1 3.
      destruct (print markup_error (Header (host_name a) ga) st)
        as [[[]|e] st1];
        [|reflexivity].
      unfold bind at 1 2.
      match goal with
      | |- context [for_each ?l ?b st1] =>
          destruct (for_each l b st1) as [[[]|e] st2]
      end; [|reflexivity].
      apply IH. destruct Hseen as [?|(h' & Hh' & Hl)].
      * left. apply elem_of_app. left. assumption.
      * apply elem_of_cons in Hh' as [->|Hh'].
        -- left. apply elem_of_app. right. apply list_elem_of_singleton. congruence.
        -- right. eauto.
Qed.

(** *** The duplicate report *)



Lemma for_each_cons {A} (x : A) xs (body : A -> M unit) st :
  for_each (x :: xs) body st =
  match body x st with
  | (Return _, st') => for_each xs body st'
  | (Raise e, st') => (Raise e, st')
  end.
Proof. reflexivity. Qed.


End RunProperties.

(** * The remover: the claims *)

Lemma delete_var_no_fault linesep path var content st :
  files st !! path = Some content ->
  delete_var linesep NoFault path var st =
  (Return tt, set_file path (rewritten linesep var content) st).
Proof.
  intros H. rewrite delete_var_eq, (delete_var_body_eq _ _ _ _ _ _ H).
  reflexivity.
Qed.

(** C1, as the specification states it, fails: on a file that defines
    [x] twice at top level, one invocation for [x] removes both
    definitions, where removal of the first block only would leave the
    second one in the file. *)
Lemma delete_var_removes_later_block_too :
  delete_var nl NoFault "vars.yml" "x:" (initial {[ "vars.yml" := two_blocks ]})
  = (Return tt, initial {[ "vars.yml" := "y: 2" +:+ nl ]}) /\
  written_text nl (delete_first_block "x:" (readlines two_blocks))
  = "y: 2" +:+ nl +:+ "x: 3" +:+ nl /\
  rewritten nl "x:" two_blocks
  <> written_text nl (delete_first_block "x:" (readlines two_blocks)).
Proof.
  split; [vm_compute; reflexivity|].
  split; [vm_compute; reflexivity|].
  vm_compute. discriminate.
Qed.

(** C1, amended: one invocation of [delete_var] removes every top-level
    block whose first line begins with [var]: the file is rewritten with
    the lines the scan keeps, none of which begins with [var]; the first
    such block goes with its indented continuation lines, and what
    follows it is scanned in the same way. *)
Theorem delete_var_removes_every_block linesep path var content st :
  files st !! path = Some content ->
  delete_var linesep NoFault path var st =
    (Return tt,
     set_file path (written_text linesep (scan var (readlines content))) st) /\
  Forall (fun line => startswith var line = false)
    (scan var (readlines content)) /\
  forall before key rest,
    readlines content = before ++ key :: rest ->
    Forall (fun line => startswith var line = false) before ->
    startswith var key = true ->
    scan var (readlines content) = before ++ scan var (skip_indented rest).
Proof.
  intros H. split; [apply delete_var_no_fault, H|].
  split; [apply scan_from_no_key|].
  intros before key rest -> Hbefore Hkey.
  apply scan_first_block; assumption.
Qed.

Lemma delete_var_removes_every_block_witness :
  files (initial {[ "vars.yml" := two_blocks ]}) !! "vars.yml" = Some two_blocks /\
  delete_var nl NoFault "vars.yml" "x:" (initial {[ "vars.yml" := two_blocks ]}) =
    (Return tt,
     set_file "vars.yml" (written_text nl (scan "x:" (readlines two_blocks)))
       (initial {[ "vars.yml" := two_blocks ]})) /\
  scan "x:" (readlines two_blocks) =
    [] ++ scan "x:" (skip_indented ["y: 2" +:+ nl; "x: 3" +:+ nl]).
Proof.
  assert (files (initial {[ "vars.yml" := two_blocks ]}) !! "vars.yml"
          = Some two_blocks) as H by (vm_compute; reflexivity).
  split; [exact H|].
  destruct (delete_var_removes_every_block nl "vars.yml" "x:" two_blocks _ H)
    as (Hrun & _ & Hfirst).
  split; [exact Hrun|].
  apply (Hfirst [] ("x: 1" +:+ nl)).
  - vm_compute. reflexivity.
  - constructor.
  - vm_compute. reflexivity.
Defined.

(** C2, as the specification states it, fails in its scenario: on a
    file that has [app_port: 8080], two indented lines, [next_key: 1]
    and then a second [app_port] block, removal of [app_port] deletes
    five lines, not the three of the first block: of what follows
    [next_key: 1] nothing is kept. *)
Lemma later_app_port_block_is_deleted_too :
  readlines app_port_twice =
    ["app_port: 8080" +:+ nl; "  proto: tcp" +:+ nl; "  bind: any" +:+ nl;
     "next_key: 1" +:+ nl; "app_port: 9090" +:+ nl; "  proto: udp" +:+ nl] /\
  delete_var nl NoFault "vars.yml" "app_port:"
    (initial {[ "vars.yml" := app_port_twice ]})
  = (Return tt, initial {[ "vars.yml" := "next_key: 1" +:+ nl ]}) /\
  machine "app_port:" OUTSIDE (readlines app_port_twice)
  = ["next_key: 1" +:+ nl] /\
  scan "app_port:" (readlines app_port_twice)
  <> drop 3 (readlines app_port_twice).
Proof.
  split; [vm_compute; reflexivity|].
  split; [vm_compute; reflexivity|].
  split; [vm_compute; reflexivity|].
  vm_compute. discriminate.
Qed.

(** C2, amended: the lines [delete_var] writes are the lines the
    two-state machine of the specification keeps, started in [OUTSIDE];
    and on a file that has [app_port: 8080], two indented lines and then
    [next_key: 1], removal of [app_port] drops these three lines and
    keeps [next_key: 1], going on after it as from the start: what
    follows [next_key: 1] is scanned in the same way, so all of it stays
    when no line of it begins with [app_port:], and only then. *)
Theorem scan_is_two_state_machine :
  (forall var lines, scan var lines = machine var OUTSIDE lines) /\
  (forall linesep path var content st,
     files st !! path = Some content ->
     delete_var linesep NoFault path var st =
       (Return tt,
        set_file path
          (written_text linesep (machine var OUTSIDE (readlines content))) st)) /\
  (forall l1 l2 rest,
     startswith_space_or_tab l1 = true ->
     startswith_space_or_tab l2 = true ->
     scan "app_port:"
       (("app_port: 8080" +:+ nl) :: l1 :: l2 :: ("next_key: 1" +:+ nl) :: rest)
     = ("next_key: 1" +:+ nl) :: scan "app_port:" rest /\
     (Forall (fun line => startswith "app_port:" line = false) rest <->
      scan "app_port:"
        (("app_port: 8080" +:+ nl) :: l1 :: l2 :: ("next_key: 1" +:+ nl) :: rest)
      = ("next_key: 1" +:+ nl) :: rest)).
Proof.
  assert (forall var lines, scan var lines = machine var OUTSIDE lines) as Hm
    by (intros var lines; exact (scan_from_machine var OUTSIDE lines)).
  split; [exact Hm|]. split.
  - intros linesep path var content st H.
    rewrite <- Hm. apply delete_var_no_fault, H.
  - intros l1 l2 rest H1 H2.
    assert (scan "app_port:"
              (("app_port: 8080" +:+ nl) :: l1 :: l2
                 :: ("next_key: 1" +:+ nl) :: rest)
            = ("next_key: 1" +:+ nl) :: scan "app_port:" rest) as Heq.
    { unfold scan. rewrite scan_from_cons.
      change (startswith "app_port:" ("app_port: 8080" +:+ nl)) with true.
      cbn [orb app]. rewrite scan_from_cons, H1, orb_true_r. cbn [app].
      rewrite scan_from_cons, H2, orb_true_r. cbn [app].
      rewrite scan_from_cons. reflexivity. }
    split; [exact Heq|]. rewrite Heq. split.
    + intros Hrest. rewrite (scan_no_key _ _ Hrest). reflexivity.
    + intros Hkept. injection Hkept as Hkept. rewrite <- Hkept.
      apply scan_from_no_key.
Qed.

Lemma scan_is_two_state_machine_witness :
  files (initial {[ "vars.yml" := app_port_file ]}) !! "vars.yml"
    = Some app_port_file /\
  delete_var nl NoFault "vars.yml" "app_port:"
    (initial {[ "vars.yml" := app_port_file ]}) =
    (Return tt,
     set_file "vars.yml"
       (written_text nl (machine "app_port:" OUTSIDE (readlines app_port_file)))
       (initial {[ "vars.yml" := app_port_file ]})) /\
  scan "app_port:" (readlines app_port_file)
    = ["next_key: 1" +:+ nl; "last_key: 2" +:+ nl].
Proof.
  assert (files (initial {[ "vars.yml" := app_port_file ]}) !! "vars.yml"
          = Some app_port_file) as H by (vm_compute; reflexivity).
  split; [exact H|].
  destruct scan_is_two_state_machine as (_ & Hfile & Hblock).
  split; [exact (Hfile nl "vars.yml" "app_port:" app_port_file _ H)|].
  destruct (Hblock ("  proto: tcp" +:+ nl) ("  bind: any" +:+ nl)
              ["last_key: 2" +:+ nl]) as [_ Hkept];
    [vm_compute; reflexivity | vm_compute; reflexivity |].
  apply Hkept. repeat constructor.
Defined.

Lemma first_chars_prefix n s : exists rest, s = first_chars n s +:+ rest.
Proof.
  revert s. induction n as [|n IH]; intros s; [exists s; reflexivity|].
  destruct s as [|c s]; [exists ""; reflexivity|].
  destruct (IH s) as (rest & Hrest). exists rest.
  cbn [first_chars]. rewrite append_cons, <- Hrest. reflexivity.
Qed.

(** C3, as the specification states it, fails. On a path that holds no
    file, [delete_var] cannot read, yet it returns as it does on
    success, and [run] prints the file as deleted. And when the device
    fails after seven characters of the new content, the file is left
    with these seven characters, which are neither its old content nor
    the full replacement. *)
Lemma failed_removal_is_swallowed_and_partial :
  delete_var_body nl NoFault "dup.yml" "x:" (initial ∅)
  = (Raise (FileNotFoundError "dup.yml"), initial ∅) /\
  delete_var nl NoFault "dup.yml" "x:" (initial ∅)
  = (Return tt,
     {| files := ∅;
        console := [Traceback (FileNotFoundError "dup.yml")];
        calls := [] |}) /\
  report_duplicates nl no_faults rejects_closing_x both_options "x"
    ["host_vars/web1.yml"; "dup.yml"] (initial ∅)
  = (Return tt,
     {| files := ∅;
        console :=
          [DupHeader "x" "host_vars/web1.yml";
           Traceback (FileNotFoundError "dup.yml");
           DupLine "dup.yml" true];
        calls := [("dup.yml", "x:")] |}) /\
  delete_var nl (WriteFault 7) "dup.yml" "x:"
    (initial {[ "dup.yml" := three_keys ]})
  = (Return tt,
     {| files := {[ "dup.yml" := "a: 1" +:+ nl +:+ "b:" ]};
        console := [Traceback (OSError "dup.yml")];
        calls := [] |}) /\
  "a: 1" +:+ nl +:+ "b:" <> three_keys /\
  "a: 1" +:+ nl +:+ "b:" <> rewritten nl "x:" three_keys.
Proof.
  split; [vm_compute; reflexivity|].
  split; [vm_compute; reflexivity|].
  split; [vm_compute; reflexivity|].
  split; [vm_compute; reflexivity|].
  split; vm_compute; discriminate.
Qed.

(** C3, amended: when the [try] block of [delete_var] raises, the
    exception is caught, its traceback is printed and [delete_var]
    returns normally; no other file is touched; the target file is left
    as it was unless the failure came after it was opened for writing,
    in which case it holds the characters that reached it, a prefix of
    the new content, and nothing else. *)
Theorem delete_var_failure_is_caught linesep fault path var st e st_b :
  delete_var_body linesep fault path var st = (Raise e, st_b) ->
  delete_var linesep fault path var st =
    (Return tt,
     {| files := files st_b;
        console := console st ++ [Traceback e];
        calls := calls st |}) /\
  (forall p, p <> path -> files st_b !! p = files st !! p) /\
  match files st !! path, fault with
  | Some content, WriteFault n =>
      files st_b !! path = Some (first_chars n (rewritten linesep var content)) /\
      exists rest,
        rewritten linesep var content
        = first_chars n (rewritten linesep var content) +:+ rest
  | _, _ => files st_b = files st
  end.
Proof.
  intros Hbody. split; [rewrite delete_var_eq, Hbody; reflexivity|].
  split.
  { intros p Hp.
    pose proof (delete_var_body_other_files linesep fault path var st p Hp) as H.
    rewrite Hbody in H. exact H. }
  destruct (files st !! path) as [content|] eqn:Hfile.
  - rewrite (delete_var_body_eq _ _ _ _ _ _ Hfile) in Hbody.
    destruct fault as [| | |n].
    + discriminate.
    + injection Hbody as _ <-. reflexivity.
    + injection Hbody as _ <-. reflexivity.
    + injection Hbody as _ <-. split.
      * rewrite files_set_file. apply lookup_insert_eq.
      * apply first_chars_prefix.
  - rewrite delete_var_body_missing in Hbody by exact Hfile.
    injection Hbody as _ <-. reflexivity.
Qed.

Lemma delete_var_failure_is_caught_witness :
  delete_var_body nl (WriteFault 7) "dup.yml" "x:"
    (initial {[ "dup.yml" := three_keys ]})
  = (Raise (OSError "dup.yml"),
     initial {[ "dup.yml" := "a: 1" +:+ nl +:+ "b:" ]}) /\
  delete_var nl (WriteFault 7) "dup.yml" "x:"
    (initial {[ "dup.yml" := three_keys ]})
  = (Return tt,
     {| files := files (initial {[ "dup.yml" := "a: 1" +:+ nl +:+ "b:" ]});
        console :=
          console (initial {[ "dup.yml" := three_keys ]})
          ++ [Traceback (OSError "dup.yml")];
        calls := calls (initial {[ "dup.yml" := three_keys ]}) |}).
Proof.
  assert (delete_var_body nl (WriteFault 7) "dup.yml" "x:"
            (initial {[ "dup.yml" := three_keys ]})
          = (Raise (OSError "dup.yml"),
             initial {[ "dup.yml" := "a: 1" +:+ nl +:+ "b:" ]})) as H
    by (vm_compute; reflexivity).
  split; [exact H|].
  exact (proj1 (delete_var_failure_is_caught _ _ _ _ _ _ _ H)).
Defined.

(** C6, as the specification states it, fails: a file with CR LF
    terminators and no line that begins with [x:] is rewritten with LF
    terminators where [os.linesep] is LF; and where [os.linesep] is
    CR LF, it is a file with LF terminators that is changed. *)
Lemma crlf_file_is_not_left_identical :
  Forall (fun line => startswith "x:" line = false) (readlines crlf_file) /\
  delete_var nl NoFault "vars.yml" "x:" (initial {[ "vars.yml" := crlf_file ]})
  = (Return tt, initial {[ "vars.yml" := "a: 1" +:+ nl +:+ "b: 2" +:+ nl ]}) /\
  "a: 1" +:+ nl +:+ "b: 2" +:+ nl <> crlf_file /\
  delete_var crlf NoFault "vars.yml" "x:"
    (initial {[ "vars.yml" := "a: 1" +:+ nl ]})
  = (Return tt, initial {[ "vars.yml" := "a: 1" +:+ crlf ]}).
Proof.
  split; [vm_compute; repeat constructor|].
  split; [vm_compute; reflexivity|].
  split; [vm_compute; discriminate | vm_compute; reflexivity].
Qed.

(** C6, amended: on a file none of whose lines begins with [var],
    [delete_var] writes back every line it read, in order (a write is
    performed, with [os.linesep] in the place of each terminator); the
    file is left identical when it has no carriage return and
    [os.linesep] is LF. *)
Theorem delete_var_without_key_line path var content st :
  files st !! path = Some content ->
  Forall (fun line => startswith var line = false) (readlines content) ->
  (forall linesep,
     delete_var linesep NoFault path var st =
     (Return tt,
      set_file path (written_text linesep (readlines content)) st)) /\
  (no_CR content = true -> delete_var nl NoFault path var st = (Return tt, st)).
Proof.
  intros Hfile Hkey. split.
  - intros linesep. rewrite (delete_var_no_fault _ _ _ _ _ Hfile).
    unfold rewritten. rewrite (scan_no_key _ _ Hkey). reflexivity.
  - intros Hcr. rewrite (delete_var_no_fault _ _ _ _ _ Hfile).
    rewrite (rewritten_no_key _ _ Hcr Hkey), (set_file_id _ _ _ Hfile).
    reflexivity.
Qed.

Lemma delete_var_without_key_line_witness :
  files (initial {[ "vars.yml" := app_port_file ]}) !! "vars.yml"
    = Some app_port_file /\
  Forall (fun line => startswith "timeout:" line = false)
    (readlines app_port_file) /\
  no_CR app_port_file = true /\
  delete_var nl NoFault "vars.yml" "timeout:"
    (initial {[ "vars.yml" := app_port_file ]})
  = (Return tt, initial {[ "vars.yml" := app_port_file ]}).
Proof.
  assert (files (initial {[ "vars.yml" := app_port_file ]}) !! "vars.yml"
          = Some app_port_file) as H by (vm_compute; reflexivity).
  assert (Forall (fun line => startswith "timeout:" line = false)
            (readlines app_port_file)) as Hkey
    by (vm_compute; repeat constructor).
  assert (no_CR app_port_file = true) as Hcr by (vm_compute; reflexivity).
  split; [exact H|]. split; [exact Hkey|]. split; [exact Hcr|].
  exact (proj2 (delete_var_without_key_line _ _ _ _ H Hkey) Hcr).
Defined.

(** C8, as the specification states it, fails: the line [keep: 1] of a
    file with CR LF terminators is outside the removed block, and it is
    written back with an LF terminator where [os.linesep] is LF; where
    [os.linesep] is CR LF, a kept line that ended in LF is written back
    with CR LF. *)
Lemma crlf_kept_line_loses_its_ending :
  crlf_with_x = ("keep: 1" +:+ crlf) +:+ ("x: 2" +:+ crlf) /\
  delete_var nl NoFault "vars.yml" "x:"
    (initial {[ "vars.yml" := crlf_with_x ]})
  = (Return tt, initial {[ "vars.yml" := "keep: 1" +:+ nl ]}) /\
  "keep: 1" +:+ nl <> "keep: 1" +:+ crlf /\
  delete_var crlf NoFault "vars.yml" "x:"
    (initial {[ "vars.yml" := "keep: 1" +:+ nl +:+ "x: 2" +:+ nl ]})
  = (Return tt, initial {[ "vars.yml" := "keep: 1" +:+ crlf ]}).
Proof.
  split; [vm_compute; reflexivity|].
  split; [vm_compute; reflexivity|].
  split; [vm_compute; discriminate | vm_compute; reflexivity].
Qed.

(** C8, amended: the lines [delete_var] hands to the write step are the
    lines read that lie outside every block defining [var], each as it
    was read and in the original order; on disk each of them ends with
    [os.linesep]; they are written back byte for byte when the file has
    no carriage return and [os.linesep] is LF. *)
Theorem delete_var_keeps_other_lines linesep path var content st :
  files st !! path = Some content ->
  exists mask,
    length mask = length (readlines content) /\
    (forall i, (i < length (readlines content))%nat ->
       mask !! i = Some false <-> in_deleted_block var (readlines content) i) /\
    delete_var linesep NoFault path var st =
      (Return tt,
       set_file path (written_text linesep (select mask (readlines content))) st) /\
    (no_CR content = true ->
     String.concat "" (readlines content) = content /\
     written_text nl (select mask (readlines content)) =
       String.concat "" (select mask (readlines content))).
Proof.
  intros Hfile. exists (kept_mask var (readlines content)).
  destruct (scan_kept_mask var (readlines content)) as (Hlen & Hsel & Hmask).
  split; [exact Hlen|]. split; [exact Hmask|]. split.
  - rewrite (delete_var_no_fault _ _ _ _ _ Hfile). unfold rewritten.
    rewrite Hsel. reflexivity.
  - intros Hcr. split; [|apply written_text_nl].
    unfold readlines. rewrite (universal_newlines_no_CR _ Hcr).
    apply concat_split_keepends.
Qed.

Lemma delete_var_keeps_other_lines_witness :
  files (initial {[ "vars.yml" := app_port_file ]}) !! "vars.yml"
    = Some app_port_file /\
  exists mask,
    length mask = length (readlines app_port_file) /\
    delete_var nl NoFault "vars.yml" "app_port:"
      (initial {[ "vars.yml" := app_port_file ]}) =
      (Return tt,
       set_file "vars.yml"
         (written_text nl (select mask (readlines app_port_file)))
         (initial {[ "vars.yml" := app_port_file ]})).
Proof.
  assert (files (initial {[ "vars.yml" := app_port_file ]}) !! "vars.yml"
          = Some app_port_file) as H by (vm_compute; reflexivity).
  split; [exact H|].
  destruct (delete_var_keeps_other_lines nl "vars.yml" "app_port:" _ _ H)
    as (mask & Hlen & _ & Hrun & _).
  exists mask. split; [exact Hlen | exact Hrun].
Defined.

(** * [run]: the claims *)

Section RunClaims.

Context (os_linesep : string) (io_faults : nat -> io_fault).
Context (markup_error : string -> bool).
Context (get_hosts : string -> list host_t).
Context (variable_sources :
           gmap string string -> host_t -> option string -> list variable_t).
Context (file_occurrences :
           gmap string string -> variable_t -> option bool ->
           list string * list string).
Context (verbosity : Z) (CLIARGS : cliargs).

Local Abbreviation report_duplicates' :=
  (report_duplicates os_linesep io_faults markup_error CLIARGS).


(** C5: the variables of the deny-list leave no trace of a run: the
    run is the same as if the resolver had not yielded them, and no
    event it prints about a variable names one of them. *)
Theorem internal_vars_never_shown st :
  run os_linesep io_faults markup_error get_hosts variable_sources file_occurrences verbosity CLIARGS st =
    run os_linesep io_faults markup_error get_hosts (without_internal variable_sources) file_occurrences verbosity CLIARGS st /\
  prints_only names_no_internal st (snd (run os_linesep io_faults markup_error get_hosts variable_sources file_occurrences verbosity CLIARGS st)) /\
  "ansible_facts" ∈ INTERNAL_VARS /\
  "inventory_hostname" ∈ INTERNAL_VARS /\
  "groups" ∈ INTERNAL_VARS /\
  "group_names" ∈ INTERNAL_VARS /\
  "omit" ∈ INTERNAL_VARS.
Proof.
  split; [|split].
  - unfold run. destruct (get_hosts (host CLIARGS)); [reflexivity|].
    apply hosts_loop_without_internal.
  - unfold run. destruct (get_hosts (host CLIARGS)).
    + apply prints_only_refl.
    + apply hosts_loop_names.
  - repeat split; apply bool_decide_unpack; vm_compute; exact I.
Qed.

(** C7: when the pattern matches no host, [run] raises
    [AnsibleOptionsError] at once; nothing is printed and nothing is
    changed. *)
Theorem run_without_host_raises st :
  get_hosts (host CLIARGS) = [] ->
  run os_linesep io_faults markup_error get_hosts variable_sources file_occurrences verbosity CLIARGS st =
  (Raise (AnsibleOptionsError
            "You must pass a single valid host to ansible-variables"),
   st).
Proof. intros H. unfold run. rewrite H. reflexivity. Qed.

(** C9: a host whose last group is the last group of a host earlier
    in the list is passed over: the run is the run on the list
    without it. *)
Theorem run_skips_host_of_seen_group get_hosts_less before h after g st :
  get_hosts (host CLIARGS) = before ++ h :: after ->
  get_hosts_less (host CLIARGS) = before ++ after ->
  last (get_groups h) = Some g ->
  (exists h', h' ∈ before /\ last (get_groups h') = Some g) ->
  run os_linesep io_faults markup_error get_hosts variable_sources file_occurrences verbosity CLIARGS st =
  run os_linesep io_faults markup_error get_hosts_less variable_sources file_occurrences verbosity CLIARGS st.
Proof.
  intros Hall Hless Hg Hseen. unfold run. rewrite Hall, Hless.
  destruct before as [|a before].
  - destruct Hseen as (h' & Hh' & _). inversion Hh'.
  - rewrite <- !app_comm_cons, !app_comm_cons.
    apply hosts_loop_skip with (g := g); [exact Hg | right; exact Hseen].
Qed.

(** C10: unless both the duplicate check and the removal are asked
    for, a run calls [delete_var] not once and leaves every file as it
    was. *)
Theorem removal_needs_both_options st :
  truthy (check_duplicates CLIARGS) = false \/
  truthy (remove_duplicates CLIARGS) = false ->
  calls (snd (run os_linesep io_faults markup_error get_hosts variable_sources file_occurrences verbosity CLIARGS st)) = calls st /\
  files (snd (run os_linesep io_faults markup_error get_hosts variable_sources file_occurrences verbosity CLIARGS st)) = files st.
Proof.
  intros Hopt. unfold run.
  destruct (get_hosts (host CLIARGS)) as [|h hs]; [split; reflexivity|].
  destruct (hosts_loop_console_only os_linesep io_faults markup_error variable_sources
              file_occurrences verbosity CLIARGS [] (h :: hs) Hopt st)
    as [Hf Hc].
  split; assumption.
Qed.

End RunClaims.



Lemma run_without_host_raises_witness :
  no_host (host both_options) = [] /\
  run nl no_faults rejects_closing_x no_host example_sources example_occurrences 1 both_options
    (initial example_files)
  = (Raise (AnsibleOptionsError
              "You must pass a single valid host to ansible-variables"),
     initial example_files).
Proof.
  split; [reflexivity|].
  apply (run_without_host_raises nl no_faults rejects_closing_x no_host example_sources
           example_occurrences 1 both_options (initial example_files)).
  reflexivity.
Defined.

Lemma run_skips_host_of_seen_group_witness :
  three_hosts (host both_options) = [web1] ++ web2 :: [db1] /\
  two_hosts (host both_options) = [web1] ++ [db1] /\
  last (get_groups web2) = Some "web" /\
  last (get_groups web1) = Some "web" /\
  run nl no_faults rejects_closing_x three_hosts example_sources example_occurrences 1
    both_options (initial example_files)
  = run nl no_faults rejects_closing_x two_hosts example_sources example_occurrences 1
      both_options (initial example_files).
Proof.
  split; [reflexivity|]. split; [reflexivity|].
  split; [reflexivity|]. split; [reflexivity|].
  apply (run_skips_host_of_seen_group nl no_faults rejects_closing_x three_hosts example_sources
           example_occurrences 1 both_options two_hosts
           [web1] web2 [db1] "web" (initial example_files));
    try reflexivity.
  exists web1. split; [apply list_elem_of_singleton|]; reflexivity.
Defined.

Lemma removal_needs_both_options_witness :
  truthy (remove_duplicates remove_only) = true /\
  truthy (check_duplicates remove_only) = false /\
  calls (snd (run nl no_faults rejects_closing_x three_hosts example_sources example_occurrences
                1 remove_only (initial example_files)))
  = calls (initial example_files) /\
  files (snd (run nl no_faults rejects_closing_x three_hosts example_sources example_occurrences
                1 remove_only (initial example_files)))
  = files (initial example_files).
Proof.
  split; [reflexivity|]. split; [reflexivity|].
  apply (removal_needs_both_options nl no_faults rejects_closing_x three_hosts example_sources
           example_occurrences 1 remove_only (initial example_files)).
  left. reflexivity.
Defined.

(** * Further properties of the remover *)

(** ** Keys and lines *)

Lemma startswith_cons a p b s :
  startswith (String a p) (String b s) = true <-> a = b /\ startswith p s = true.
Proof.
  unfold startswith. cbn [String.prefix].
  destruct (ascii_dec a b) as [->|Hne]; [tauto|].
  split; [discriminate | intros [? _]; contradiction].
Qed.

Lemma lacks_cons c c' s :
  lacks c (String c' s) = true <-> c' <> c /\ lacks c s = true.
Proof.
  cbn [lacks]. rewrite andb_true_iff, negb_true_iff.
  destruct (Ascii.eqb_spec c' c); split; intros [? ?]; split;
    congruence || assumption.
Qed.

(** A key line of one name begins with the key of another name only
    if the names are the same. *)
Lemma key_prefix_same_name n n' rest :
  lacks ":" n = true -> lacks ":" n' = true ->
  startswith (n +:+ ":") (n' +:+ ":" +:+ rest) = true -> n = n'.
Proof.
  revert n'. induction n as [|a n IH]; intros [|b n'] Hn Hn' Hpre.
  - reflexivity.
  - rewrite !append_cons in Hpre. change ("" +:+ ":") with ":" in Hpre.
    apply startswith_cons in Hpre as [<- _].
    apply lacks_cons in Hn' as [Hb _]. congruence.
  - rewrite !append_cons in Hpre. change ("" +:+ ":" +:+ rest) with (String ":" rest) in Hpre.
    apply startswith_cons in Hpre as [-> _].
    apply lacks_cons in Hn as [Ha _]. congruence.
  - rewrite !append_cons in Hpre.
    apply startswith_cons in Hpre as [<- Hpre].
    apply lacks_cons in Hn as [_ Hn]. apply lacks_cons in Hn' as [_ Hn'].
    f_equal. apply IH; assumption.
Qed.

Lemma top_level_key_line n rest :
  startswith_space_or_tab n = false ->
  startswith_space_or_tab (n +:+ ":" +:+ rest) = false.
Proof.
  destruct n as [|c n]; [reflexivity|]. intros H. rewrite append_cons.
  unfold startswith_space_or_tab, startswith in *.
  cbn [String.prefix] in *.
  assert (forall s, String.prefix "" s = true) as Hempty by (intros []; reflexivity).
  rewrite !Hempty in *. exact H.
Qed.

(** A line that is not indented and does not begin with [var] is
    written, whatever the flag. *)
Lemma scan_from_keeps var b lines line :
  line ∈ lines ->
  startswith var line = false ->
  startswith_space_or_tab line = false ->
  line ∈ scan_from var b lines.
Proof.
  intros Hin Hkey Hind. revert b.
  induction lines as [|l rest IH]; intros b; [inversion Hin|].
  rewrite scan_from_cons. apply elem_of_app.
  apply elem_of_cons in Hin as [<-|Hin].
  - left. rewrite Hkey, Hind, andb_false_r. apply list_elem_of_singleton.
    reflexivity.
  - right. apply IH, Hin.
Qed.

(** X1: removal of the variable [n] keeps every top-level line that
    defines a variable of another name [n'], also one that [n] is a
    prefix of (names without colon; a top-level line is one that does
    not begin with a space or a tab). *)
Theorem removal_keeps_other_keys n n' rest lines :
  lacks ":" n = true -> lacks ":" n' = true -> n <> n' ->
  startswith_space_or_tab n' = false ->
  (n' +:+ ":" +:+ rest) ∈ lines ->
  (n' +:+ ":" +:+ rest) ∈ scan (n +:+ ":") lines.
Proof.
  intros Hn Hn' Hne Htop Hin. apply scan_from_keeps; [exact Hin | |].
  - destruct (startswith (n +:+ ":") (n' +:+ ":" +:+ rest)) eqn:Hpre;
      [|reflexivity].
    exfalso. apply Hne. exact (key_prefix_same_name n n' rest Hn Hn' Hpre).
  - apply top_level_key_line, Htop.
Qed.

Lemma removal_keeps_other_keys_witness :
  ("app_port" +:+ ":" +:+ " 8080" +:+ nl) ∈ readlines app_port_file /\
  ("app_port" +:+ ":" +:+ " 8080" +:+ nl)
    ∈ scan ("app" +:+ ":") (readlines app_port_file).
Proof.
  assert (("app_port" +:+ ":" +:+ " 8080" +:+ nl) ∈ readlines app_port_file)
    as Hin by (vm_compute; apply list_elem_of_here).
  split; [exact Hin|].
  apply (removal_keeps_other_keys "app" "app_port" (" 8080" +:+ nl)
           (readlines app_port_file));
    [reflexivity | reflexivity | discriminate | reflexivity | exact Hin].
Defined.

(** ** Writing lines and reading them back *)

Lemma translate_newlines_app linesep s t :
  translate_newlines linesep (s +:+ t) =
  translate_newlines linesep s +:+ translate_newlines linesep t.
Proof.
  induction s as [|c s IH]; [reflexivity|].
  rewrite append_cons. cbn [translate_newlines].
  destruct (Ascii.eqb c LF); rewrite IH.
  - symmetry. apply append_assoc.
  - reflexivity.
Qed.

Lemma written_text_translate linesep lines :
  written_text linesep lines =
  translate_newlines linesep (String.concat "" lines).
Proof.
  induction lines as [|l ls IH]; [reflexivity|].
  rewrite written_text_cons, concat_cons, translate_newlines_app, IH.
  reflexivity.
Qed.

(** What is written with CR LF terminators is read as it was before
    the write. *)
Lemma universal_newlines_translate_crlf s :
  no_CR s = true -> universal_newlines (translate_newlines crlf s) = s.
Proof.
  induction s as [|c s IH]; [reflexivity|].
  cbn [no_CR translate_newlines]. intros H.
  apply andb_true_iff in H as [Hc Hs]. apply negb_true_iff in Hc.
  destruct (Ascii.eqb_spec c LF) as [->|Hlf].
  - change (crlf +:+ translate_newlines crlf s)
      with (String CR (String LF (translate_newlines crlf s))).
    cbn [universal_newlines]. change (Ascii.eqb CR CR) with true.
    change (Ascii.eqb LF LF) with true. cbn iota.
    rewrite IH by exact Hs. reflexivity.
  - cbn [universal_newlines]. rewrite Hc, IH by exact Hs. reflexivity.
Qed.

Lemma no_CR_app s t : no_CR (s +:+ t) = no_CR s && no_CR t.
Proof.
  induction s as [|c s IH]; [reflexivity|].
  rewrite append_cons. cbn [no_CR]. rewrite IH, andb_assoc. reflexivity.
Qed.

Lemma terminated_no_CR s : terminated s = true -> no_CR s = true.
Proof.
  induction s as [|c s IH]; [discriminate|]. cbn [terminated no_CR].
  destruct (Ascii.eqb_spec c LF) as [->|Hlf].
  - destruct s; [reflexivity | discriminate].
  - intros H. apply andb_true_iff in H as [-> H]. exact (IH H).
Qed.

Lemma unterminated_no_CR s : unterminated s = true -> no_CR s = true.
Proof.
  destruct s as [|c s]; [discriminate|]. unfold unterminated.
  intros H. apply andb_true_iff in H as [_ H]. revert H.
  generalize (String c s). clear. intros s.
  induction s as [|c s IH]; [reflexivity|]. cbn [lacks no_CR].
  intros H. apply andb_true_iff in H as [-> H]. exact (IH H).
Qed.

Lemma file_lines_cons line rest :
  terminated line = true -> file_lines rest = true ->
  file_lines (line :: rest) = true.
Proof.
  intros Hl Hr. cbn [file_lines]. destruct rest; rewrite Hl; [reflexivity|].
  exact Hr.
Qed.

Lemma file_lines_inv line l rest :
  file_lines (line :: l :: rest) = true ->
  terminated line = true /\ file_lines (l :: rest) = true.
Proof. cbn [file_lines]. intros H. apply andb_true_iff in H. exact H. Qed.

Lemma file_lines_no_CR lines :
  file_lines lines = true -> no_CR (String.concat "" lines) = true.
Proof.
  induction lines as [|l [|l' ls] IH]; [reflexivity| |].
  - cbn [file_lines String.concat]. intros H.
    apply orb_true_iff in H as [H|H];
      [apply terminated_no_CR, H | apply unterminated_no_CR, H].
  - intros H. apply file_lines_inv in H as [Hl Hr].
    rewrite concat_cons, no_CR_app, (terminated_no_CR _ Hl), (IH Hr).
    reflexivity.
Qed.

Lemma split_keepends_terminated line t :
  terminated line = true ->
  split_keepends (line +:+ t) = line :: split_keepends t.
Proof.
  induction line as [|c s IH]; [discriminate|].
  cbn [terminated]. rewrite append_cons. cbn [split_keepends].
  destruct (Ascii.eqb_spec c LF) as [->|Hlf].
  - destruct s; [reflexivity | discriminate].
  - intros H. apply andb_true_iff in H as [_ H]. rewrite (IH H). reflexivity.
Qed.

Lemma split_keepends_unterminated line :
  unterminated line = true -> split_keepends line = [line].
Proof.
  destruct line as [|c s]; [discriminate|]. unfold unterminated.
  intros H. apply andb_true_iff in H as [H _]. revert c H.
  induction s as [|c' s IH]; intros c H.
  - cbn [lacks] in H. apply andb_true_iff in H as [H _].
    apply negb_true_iff in H. cbn [split_keepends]. rewrite H. reflexivity.
  - cbn [lacks] in H. apply andb_true_iff in H as [Hc H].
    apply negb_true_iff in Hc.
    cbn [split_keepends] in *. rewrite Hc.
    specialize (IH c' H). cbn [split_keepends] in IH. rewrite IH. reflexivity.
Qed.

(** Lines that have their terminators are found again when their
    concatenation is cut into lines. *)
Lemma split_keepends_concat lines :
  file_lines lines = true -> split_keepends (String.concat "" lines) = lines.
Proof.
  induction lines as [|l [|l' ls] IH]; [reflexivity| |].
  - cbn [file_lines String.concat]. intros H.
    apply orb_true_iff in H as [H|H].
    + rewrite <- (append_nil_r l) at 1.
      rewrite (split_keepends_terminated _ "" H). reflexivity.
    + apply split_keepends_unterminated, H.
  - intros H. apply file_lines_inv in H as [Hl Hr].
    rewrite concat_cons, (split_keepends_terminated _ _ Hl), (IH Hr).
    reflexivity.
Qed.

Lemma terminated_cons c s :
  Ascii.eqb c LF = false -> Ascii.eqb c CR = false ->
  terminated (String c s) = terminated s.
Proof. intros Hlf Hcr. cbn [terminated]. rewrite Hlf, Hcr. reflexivity. Qed.

Lemma unterminated_cons c s :
  Ascii.eqb c LF = false -> Ascii.eqb c CR = false ->
  unterminated s = true -> unterminated (String c s) = true.
Proof.
  intros Hlf Hcr. destruct s as [|c' s]; [discriminate|].
  unfold unterminated. intros H. apply andb_true_iff in H as [H1 H2].
  cbn [lacks] in *. rewrite Hlf, Hcr. cbn [negb andb].
  rewrite andb_true_iff. split; assumption.
Qed.

(** Cutting a text without carriage return gives lines with their
    terminators. *)
Lemma file_lines_split_keepends s :
  no_CR s = true -> file_lines (split_keepends s) = true.
Proof.
  induction s as [|c s IH]; [reflexivity|].
  cbn [no_CR split_keepends]. intros H.
  apply andb_true_iff in H as [Hcr Hs]. apply negb_true_iff in Hcr.
  specialize (IH Hs).
  destruct (Ascii.eqb c LF) eqn:Hlf.
  - apply file_lines_cons; [reflexivity | exact IH].
  - destruct (split_keepends s) as [|l [|l' ls]].
    + cbn. rewrite Hlf, Hcr. reflexivity.
    + cbn [file_lines] in *. rewrite (terminated_cons _ _ Hlf Hcr).
      apply orb_true_iff in IH as [->|H]; [reflexivity|].
      rewrite (unterminated_cons _ _ Hlf Hcr H). apply orb_true_r.
    + apply file_lines_inv in IH as [Hl Hr].
      apply file_lines_cons; [|exact Hr].
      rewrite (terminated_cons _ _ Hlf Hcr). exact Hl.
Qed.

(** What a program reads has no carriage return. *)
Lemma no_CR_universal_newlines s : no_CR (universal_newlines s) = true.
Proof.
  enough (no_CR (universal_newlines s) = true /\
          forall c, no_CR (universal_newlines (String c s)) = true) as [H _]
    by exact H.
  induction s as [|c s [IH1 IH2]].
  - split; [reflexivity|]. intros c. cbn [universal_newlines].
    destruct (Ascii.eqb c CR) eqn:Hc; cbn [no_CR]; [reflexivity|].
    rewrite Hc. reflexivity.
  - split; [apply IH2|]. intros c'. cbn [universal_newlines].
    destruct (Ascii.eqb c' CR) eqn:Hc'.
    + destruct (Ascii.eqb c LF); cbn [no_CR]; [exact IH1 | apply IH2].
    + cbn [no_CR]. rewrite Hc'. apply IH2.
Qed.

Lemma file_lines_readlines content : file_lines (readlines content) = true.
Proof. apply file_lines_split_keepends, no_CR_universal_newlines. Qed.

(** The lines the scan writes have their terminators when the lines it
    reads have them. *)
Lemma file_lines_scan_from var b lines :
  file_lines lines = true -> file_lines (scan_from var b lines) = true.
Proof.
  revert b. induction lines as [|l [|l' ls] IH]; intros b H; [reflexivity| |].
  - rewrite scan_from_cons.
    destruct (startswith var l || b && startswith_space_or_tab l);
      [reflexivity | exact H].
  - apply file_lines_inv in H as [Hl Hr]. rewrite scan_from_cons.
    destruct (startswith var l || b && startswith_space_or_tab l);
      cbn [app]; [apply IH, Hr|].
    apply file_lines_cons; [exact Hl | apply IH, Hr].
Qed.

Lemma readlines_written_text linesep lines :
  linesep = nl \/ linesep = crlf ->
  file_lines lines = true ->
  readlines (written_text linesep lines) = lines.
Proof.
  intros Hsep Hlines. unfold readlines.
  assert (universal_newlines (written_text linesep lines)
          = String.concat "" lines) as ->.
  { destruct Hsep as [-> | ->].
    - rewrite written_text_nl.
      apply universal_newlines_no_CR, file_lines_no_CR, Hlines.
    - rewrite written_text_translate.
      apply universal_newlines_translate_crlf, file_lines_no_CR, Hlines. }
  apply split_keepends_concat, Hlines.
Qed.

(** X2: what [delete_var] writes is read back as the lines it wrote:
    the lines of the rewritten file are the lines of the old one that
    the scan kept, where [os.linesep] is LF or CR LF. *)
Theorem rewritten_reads_back linesep var content :
  linesep = nl \/ linesep = crlf ->
  readlines (rewritten linesep var content) = scan var (readlines content).
Proof.
  intros Hsep. unfold rewritten.
  apply readlines_written_text; [exact Hsep|].
  apply file_lines_scan_from, file_lines_readlines.
Qed.

Lemma rewritten_reads_back_witness :
  (crlf = nl \/ crlf = crlf) /\
  readlines (rewritten crlf "x:" crlf_with_x) = scan "x:" (readlines crlf_with_x).
Proof.
  split; [right; reflexivity|].
  apply (rewritten_reads_back crlf "x:" crlf_with_x). right. reflexivity.
Defined.

Lemma rewritten_twice linesep var content :
  linesep = nl \/ linesep = crlf ->
  rewritten linesep var (rewritten linesep var content)
  = rewritten linesep var content.
Proof.
  intros Hsep. unfold rewritten.
  rewrite (readlines_written_text linesep (scan var (readlines content)) Hsep)
    by apply file_lines_scan_from, file_lines_readlines.
  rewrite scan_idempotent. reflexivity.
Qed.

(** X3: a second removal of the same variable from the same file
    changes nothing: two successive calls of [delete_var] leave the
    state that one call leaves, where [os.linesep] is LF or CR LF. *)
Theorem delete_var_twice linesep path var content st :
  linesep = nl \/ linesep = crlf ->
  files st !! path = Some content ->
  (delete_var linesep NoFault path var ;;;
   delete_var linesep NoFault path var) st
  = delete_var linesep NoFault path var st.
Proof.
  intros Hsep Hfile. unfold bind.
  rewrite (delete_var_no_fault _ _ _ _ _ Hfile).
  erewrite delete_var_no_fault by (rewrite files_set_file; apply lookup_insert_eq).
  rewrite set_file_set_file, (rewritten_twice _ _ _ Hsep). reflexivity.
Qed.

Lemma delete_var_twice_witness :
  (nl = nl \/ nl = crlf) /\
  files (initial {[ "vars.yml" := two_blocks ]}) !! "vars.yml" = Some two_blocks /\
  (delete_var nl NoFault "vars.yml" "x:" ;;;
   delete_var nl NoFault "vars.yml" "x:") (initial {[ "vars.yml" := two_blocks ]})
  = delete_var nl NoFault "vars.yml" "x:" (initial {[ "vars.yml" := two_blocks ]}).
Proof.
  assert (files (initial {[ "vars.yml" := two_blocks ]}) !! "vars.yml"
          = Some two_blocks) as H by (vm_compute; reflexivity).
  split; [left; reflexivity|]. split; [exact H|].
  apply (delete_var_twice nl "vars.yml" "x:" two_blocks); [left; reflexivity|exact H].
Defined.

(** ** What [delete_var] leaves alone *)

Lemma dom_set_file path c st :
  is_Some (files st !! path) -> dom (files (set_file path c st)) = dom (files st).
Proof. intros H. rewrite files_set_file. apply dom_insert_lookup_L, H. Qed.

Lemma delete_var_body_dom linesep fault path var st :
  dom (files (snd (delete_var_body linesep fault path var st))) = dom (files st).
Proof.
  destruct (files st !! path) as [content|] eqn:H.
  - rewrite (delete_var_body_eq _ _ _ _ _ _ H).
    destruct fault; cbn [snd]; try reflexivity; apply dom_set_file; eauto.
  - rewrite delete_var_body_missing by exact H. reflexivity.
Qed.

(** X4: whatever fails, [delete_var] creates no file and removes none,
    leaves every file other than its target as it was, and only adds
    to the console. *)
Theorem delete_var_frame linesep fault path var st :
  dom (files (snd (delete_var linesep fault path var st))) = dom (files st) /\
  (forall p, p <> path ->
     files (snd (delete_var linesep fault path var st)) !! p = files st !! p) /\
  calls (snd (delete_var linesep fault path var st)) = calls st /\
  console st `prefix_of` console (snd (delete_var linesep fault path var st)).
Proof.
  rewrite delete_var_eq.
  pose proof (delete_var_body_dom linesep fault path var st) as Hdom.
  pose proof (delete_var_body_other_files linesep fault path var st) as Hother.
  pose proof (delete_var_body_files_only linesep fault path var st) as [Hc Hk].
  destruct (delete_var_body linesep fault path var st) as [[[]|e] st'];
    cbn [snd files calls console] in *.
  - split; [exact Hdom|]. split; [exact Hother|]. split; [exact Hk|].
    rewrite Hc. reflexivity.
  - split; [exact Hdom|]. split; [exact Hother|]. split; [reflexivity|].
    apply prefix_app_r. reflexivity.
Qed.

(** X5: on a path that holds no file, [delete_var] prints the traceback
    of [FileNotFoundError] and returns; the file is not created. *)
Theorem delete_var_missing_file linesep fault path var st :
  files st !! path = None ->
  delete_var linesep fault path var st =
  (Return tt,
   {| files := files st;
      console := console st ++ [Traceback (FileNotFoundError path)];
      calls := calls st |}).
Proof.
  intros H. rewrite delete_var_eq, delete_var_body_missing by exact H.
  reflexivity.
Qed.

Lemma delete_var_missing_file_witness :
  files (initial example_files) !! "group_vars/web.yml" = None /\
  delete_var nl NoFault "group_vars/web.yml" "timeout:" (initial example_files) =
  (Return tt,
   {| files := files (initial example_files);
      console :=
        console (initial example_files)
        ++ [Traceback (FileNotFoundError "group_vars/web.yml")];
      calls := calls (initial example_files) |}).
Proof.
  assert (files (initial example_files) !! "group_vars/web.yml" = None) as H
    by (vm_compute; reflexivity).
  split; [exact H|].
  exact (delete_var_missing_file nl NoFault "group_vars/web.yml" "timeout:" _ H).
Defined.

(** X6: where [os.linesep] is LF, the file [delete_var] leaves has no
    carriage return; when no line begins with [var], it is the old file
    with every CR LF and every CR turned into LF. *)
Theorem delete_var_normalises_newlines path var content st :
  files st !! path = Some content ->
  exists content',
    delete_var nl NoFault path var st = (Return tt, set_file path content' st) /\
    no_CR content' = true /\
    (Forall (fun line => startswith var line = false) (readlines content) ->
     content' = universal_newlines content).
Proof.
  intros Hfile. exists (rewritten nl var content).
  split; [apply delete_var_no_fault, Hfile|]. split.
  - unfold rewritten. rewrite written_text_nl.
    apply file_lines_no_CR, file_lines_scan_from, file_lines_readlines.
  - intros Hkey. unfold rewritten.
    rewrite (scan_no_key _ _ Hkey), written_text_nl. unfold readlines.
    apply concat_split_keepends.
Qed.

Lemma delete_var_normalises_newlines_witness :
  files (initial {[ "vars.yml" := crlf_file ]}) !! "vars.yml" = Some crlf_file /\
  exists content',
    delete_var nl NoFault "vars.yml" "x:" (initial {[ "vars.yml" := crlf_file ]})
    = (Return tt,
       set_file "vars.yml" content' (initial {[ "vars.yml" := crlf_file ]})) /\
    no_CR content' = true /\
    content' = universal_newlines crlf_file.
Proof.
  assert (files (initial {[ "vars.yml" := crlf_file ]}) !! "vars.yml"
          = Some crlf_file) as H by (vm_compute; reflexivity).
  split; [exact H|].
  destruct (delete_var_normalises_newlines "vars.yml" "x:" crlf_file _ H)
    as (content' & Hrun & Hcr & Hsame).
  exists content'. split; [exact Hrun|]. split; [exact Hcr|].
  apply Hsame. vm_compute. repeat constructor.
Defined.

(** * Further properties of [run] *)

Lemma delete_var_effects linesep fault path var st :
  fst (delete_var linesep fault path var st) = Return tt /\
  dom (files (snd (delete_var linesep fault path var st))) = dom (files st) /\
  (forall p, p <> path ->
     files (snd (delete_var linesep fault path var st)) !! p = files st !! p) /\
  calls (snd (delete_var linesep fault path var st)) = calls st /\
  console st `prefix_of` console (snd (delete_var linesep fault path var st)).
Proof.
  rewrite delete_var_eq.
  pose proof (delete_var_body_dom linesep fault path var st) as Hdom.
  pose proof (delete_var_body_other_files linesep fault path var st) as Hother.
  pose proof (delete_var_body_files_only linesep fault path var st) as [Hc Hk].
  destruct (delete_var_body linesep fault path var st) as [[[]|e] st'];
    cbn [fst snd files calls console] in *.
  - split; [reflexivity|]. split; [exact Hdom|]. split; [exact Hother|].
    split; [exact Hk|]. rewrite Hc. reflexivity.
  - split; [reflexivity|]. split; [exact Hdom|]. split; [exact Hother|].
    split; [reflexivity|]. apply prefix_app_r. reflexivity.
Qed.

Lemma goes_on_refl st : goes_on st st.
Proof. repeat split; reflexivity. Qed.

Lemma goes_on_trans st1 st2 st3 :
  goes_on st1 st2 -> goes_on st2 st3 -> goes_on st1 st3.
Proof.
  intros (Hc1 & Hk1 & Hd1) (Hc2 & Hk2 & Hd2). repeat split.
  - etransitivity; eassumption.
  - etransitivity; eassumption.
  - congruence.
Qed.

Lemma calls_only_refl P st : calls_only P st st.
Proof.
  exists []. split; [symmetry; apply app_nil_r|]. split; [constructor|].
  reflexivity.
Qed.

Lemma calls_only_trans P st1 st2 st3 :
  calls_only P st1 st2 -> calls_only P st2 st3 -> calls_only P st1 st3.
Proof.
  intros (n1 & H1 & F1 & U1) (n2 & H2 & F2 & U2). exists (n1 ++ n2).
  split; [rewrite H2, H1, app_assoc; reflexivity|].
  split; [apply Forall_app; split; assumption|].
  intros p Hp. rewrite fmap_app in Hp. apply not_elem_of_app in Hp as [Hp1 Hp2].
  rewrite U2 by exact Hp2. apply U1, Hp1.
Qed.

Lemma respects_print_goes_on markup_error o :
  respects goes_on (print markup_error o).
Proof.
  apply respects_print; [exact goes_on_refl|].
  intros st. repeat split; cbn; [apply prefix_app_r|]; reflexivity.
Qed.

Lemma respects_print_calls_only P markup_error o :
  respects (calls_only P) (print markup_error o).
Proof.
  apply respects_print; [exact (calls_only_refl P)|].
  intros st. exists []. cbn. rewrite app_nil_r.
  split; [reflexivity|]. split; [constructor | reflexivity].
Qed.

Lemma keeps_file_refl p st : keeps_file p st st.
Proof. reflexivity. Qed.

Lemma keeps_file_trans p st1 st2 st3 :
  keeps_file p st1 st2 -> keeps_file p st2 st3 -> keeps_file p st1 st3.
Proof. unfold keeps_file. congruence. Qed.

Lemma respects_print_keeps_file p markup_error o :
  respects (keeps_file p) (print markup_error o).
Proof.
  apply respects_print; [exact (keeps_file_refl p)|].
  intros st. reflexivity.
Qed.

(** A loop respects a relation that its body respects on the elements
    of the list. *)
Lemma respects_for_each_in {A} (R : state -> state -> Prop)
    (xs : list A) (body : A -> M unit) :
  (forall st, R st st) ->
  (forall st1 st2 st3, R st1 st2 -> R st2 st3 -> R st1 st3) ->
  (forall x, x ∈ xs -> respects R (body x)) ->
  respects R (for_each xs body).
Proof.
  intros Hrefl Htrans. induction xs as [|x xs IH]; intros Hbody; cbn [for_each].
  - apply respects_ret, Hrefl.
  - apply respects_bind; [exact Htrans | apply Hbody, list_elem_of_here |].
    intros _. apply IH. intros y Hy. apply Hbody, list_elem_of_further, Hy.
Qed.

(** ** Completion and exceptions *)

Lemma bind_eq {A B} (c : M A) (k : A -> M B) st :
  bind c k st =
  match c st with
  | (Return a, st') => k a st'
  | (Raise e, st') => (Raise e, st')
  end.
Proof. reflexivity. Qed.

Lemma raises_only_ret ok : raises_only ok (ret tt).
Proof. intros st. exact I. Qed.

Lemma raises_only_print ok markup_error o :
  ok MarkupError -> raises_only ok (print markup_error o).
Proof.
  intros Hok st.
  destruct (print_cases markup_error o st) as [[-> _]|[-> _]];
    [exact Hok | exact I].
Qed.

Lemma raises_only_bind ok (c : M unit) (k : unit -> M unit) :
  raises_only ok c -> (forall a, raises_only ok (k a)) ->
  raises_only ok (bind c k).
Proof.
  intros Hc Hk st. rewrite bind_eq. specialize (Hc st).
  destruct (c st) as [[a|e] st']; cbn [fst] in *; [apply Hk | exact Hc].
Qed.

Lemma raises_only_when ok b c : raises_only ok c -> raises_only ok (when b c).
Proof. intros Hc. destruct b; [exact Hc | apply raises_only_ret]. Qed.

Lemma raises_only_for_each {A} ok (xs : list A) body :
  (forall x, raises_only ok (body x)) -> raises_only ok (for_each xs body).
Proof.
  intros Hbody. induction xs as [|x xs IH]; cbn [for_each].
  - apply raises_only_ret.
  - apply raises_only_bind; [apply Hbody | intros _; exact IH].
Qed.

Section RunFurther.

Context (os_linesep : string) (io_faults : nat -> io_fault).
Context (markup_error : string -> bool).
Context (get_hosts : string -> list host_t).
Context (variable_sources :
           gmap string string -> host_t -> option string -> list variable_t).
Context (file_occurrences :
           gmap string string -> variable_t -> option bool ->
           list string * list string).
Context (verbosity : Z) (CLIARGS : cliargs).

Local Abbreviation call_delete_var' := (call_delete_var os_linesep io_faults).
Local Abbreviation report_duplicates' :=
  (report_duplicates os_linesep io_faults markup_error CLIARGS).
Local Abbreviation variable_body' :=
  (variable_body os_linesep io_faults markup_error file_occurrences verbosity
     CLIARGS).
Local Abbreviation hosts_loop' :=
  (hosts_loop os_linesep io_faults markup_error variable_sources
     file_occurrences verbosity CLIARGS).

(** ** Calls of [delete_var] from [run] *)

Lemma call_delete_var_effects path var st :
  fst (call_delete_var' path var st) = Return tt /\
  dom (files (snd (call_delete_var' path var st))) = dom (files st) /\
  (forall p, p <> path ->
     files (snd (call_delete_var' path var st)) !! p = files st !! p) /\
  calls (snd (call_delete_var' path var st)) = calls st ++ [(path, var)] /\
  console st `prefix_of` console (snd (call_delete_var' path var st)).
Proof.
  unfold call_delete_var.
  match goal with
  | |- context [delete_var ?l ?f ?p ?v ?s] =>
      destruct (delete_var_effects l f p v s) as (Hr & Hd & Ho & Hk & Hc)
  end.
  cbn [files calls console] in *. auto.
Qed.

Lemma raises_only_call_delete_var ok path var :
  raises_only ok (call_delete_var' path var).
Proof.
  intros st. destruct (call_delete_var_effects path var st) as (-> & _).
  exact I.
Qed.

Lemma respects_call_delete_var_goes_on path var :
  respects goes_on (call_delete_var' path var).
Proof.
  intros st.
  destruct (call_delete_var_effects path var st) as (_ & Hd & _ & Hk & Hc).
  repeat split; [exact Hc | rewrite Hk; apply prefix_app_r; reflexivity | exact Hd].
Qed.

Lemma respects_call_delete_var_calls_only (P : string * string -> Prop) path var :
  P (path, var) -> respects (calls_only P) (call_delete_var' path var).
Proof.
  intros HP st.
  destruct (call_delete_var_effects path var st) as (_ & _ & Ho & Hk & _).
  exists [(path, var)]. split; [exact Hk|]. split; [repeat constructor; exact HP|].
  intros p Hp. apply Ho. intros ->. apply Hp. cbn. apply list_elem_of_here.
Qed.

Lemma respects_call_delete_var_keeps_file p path var :
  p <> path -> respects (keeps_file p) (call_delete_var' path var).
Proof.
  intros Hp st. apply call_delete_var_effects, Hp.
Qed.

(** ** Relations that every step of [run] respects *)

Section Steps.

Variable R : state -> state -> Prop.
Hypothesis R_refl : forall st, R st st.
Hypothesis R_trans : forall st1 st2 st3, R st1 st2 -> R st2 st3 -> R st1 st3.
Hypothesis R_print : forall o, respects R (print markup_error o).
Hypothesis R_call :
  forall path n,
    n ∉ INTERNAL_VARS -> respects R (call_delete_var' path (n +:+ ":")).

Lemma report_duplicates_steps n dups :
  n ∉ INTERNAL_VARS -> respects R (report_duplicates' n dups).
Proof.
  intros Hn. unfold report_duplicates.
  apply respects_when; [assumption|].
  destruct dups as [|dups_0 rest]; [apply respects_raise; assumption|].
  apply respects_bind; [assumption | apply R_print |].
  intros _. apply respects_for_each; [assumption | assumption |].
  intros dup. apply respects_bind; [assumption | |].
  - apply respects_when; [assumption|]. apply R_call, Hn.
  - intros _. apply R_print.
Qed.

Lemma variable_body_steps v : respects R (variable_body' v).
Proof.
  unfold variable_body. case_bool_decide as Hn;
    [|apply respects_ret; assumption].
  cbn [when]. apply respects_bind; [assumption | |].
  - apply respects_when; [assumption|]. apply R_print.
  - intros _. apply respects_when; [assumption|]. intros st.
    destruct (file_occurrences (files st) v (check_duplicates CLIARGS))
      as [files_ dups].
    apply respects_bind; [assumption | |].
    + apply respects_when; [assumption|].
      apply respects_for_each; [assumption | assumption |].
      intros ffile. apply R_print.
    + intros _. apply respects_when; [assumption|].
      apply report_duplicates_steps, Hn.
Qed.

Lemma hosts_loop_steps groups hosts : respects R (hosts_loop' groups hosts).
Proof.
  revert groups. induction hosts as [|h rest IH]; intros groups;
    cbn [hosts_loop].
  - apply respects_ret; assumption.
  - destruct (last (get_groups h)) as [g|]; [|apply respects_raise; assumption].
    destruct (bool_decide (g ∈ groups)); [apply IH|].
    apply respects_bind; [assumption | apply R_print |].
    intros _. apply respects_bind; [assumption | |].
    + intros st. apply respects_for_each; [assumption | assumption |].
      intros v. apply variable_body_steps.
    + intros _. apply IH.
Qed.

Lemma run_steps :
  respects R
    (run os_linesep io_faults markup_error get_hosts variable_sources
       file_occurrences verbosity CLIARGS).
Proof.
  unfold run. destruct (get_hosts (host CLIARGS)) as [|h hs].
  - apply respects_raise; assumption.
  - apply hosts_loop_steps.
Qed.

End Steps.

(** X7: a run only adds to the console and to the history of removals,
    and it creates no file and removes none, whatever fails. *)
Theorem run_goes_on st :
  console st `prefix_of`
    console (snd (run os_linesep io_faults markup_error get_hosts
                    variable_sources file_occurrences verbosity CLIARGS st)) /\
  calls st `prefix_of`
    calls (snd (run os_linesep io_faults markup_error get_hosts
                  variable_sources file_occurrences verbosity CLIARGS st)) /\
  dom (files (snd (run os_linesep io_faults markup_error get_hosts
                     variable_sources file_occurrences verbosity CLIARGS st)))
  = dom (files st).
Proof.
  apply (run_steps goes_on goes_on_refl goes_on_trans).
  - apply respects_print_goes_on.
  - intros path n _. apply respects_call_delete_var_goes_on.
Qed.

(** X8: every removal a run asks for is that of a variable outside
    [INTERNAL_VARS], under its name followed by a colon; and a file that
    no removal of the run names is, after the run, as it was before. *)
Theorem run_removals st :
  exists new,
    calls (snd (run os_linesep io_faults markup_error get_hosts
                  variable_sources file_occurrences verbosity CLIARGS st))
    = calls st ++ new /\
    Forall removes_user_variable new /\
    forall p, p ∉ new.*1 ->
      files (snd (run os_linesep io_faults markup_error get_hosts
                    variable_sources file_occurrences verbosity CLIARGS st))
        !! p
      = files st !! p.
Proof.
  apply (run_steps (calls_only removes_user_variable)
           (calls_only_refl _) (calls_only_trans _)).
  - apply respects_print_calls_only.
  - intros path n Hn. apply respects_call_delete_var_calls_only.
    exists n. split; [reflexivity | exact Hn].
Qed.

(** ** The steps of the loop over the hosts *)

Lemma last_no_groups h : last (get_groups h) = None <-> no_groups h = true.
Proof.
  rewrite last_None. unfold no_groups.
  destruct (get_groups h); split; congruence.
Qed.

Lemma has_groups h g : last (get_groups h) = Some g -> no_groups h = false.
Proof.
  intros Hg. destruct (no_groups h) eqn:Hn; [|reflexivity].
  apply last_no_groups in Hn. congruence.
Qed.

Lemma hosts_loop_no_group groups h rest st :
  last (get_groups h) = None ->
  hosts_loop' groups (h :: rest) st = (Raise IndexError, st).
Proof. intros Hg. cbn [hosts_loop]. rewrite Hg. reflexivity. Qed.

Lemma hosts_loop_seen groups h rest g st :
  last (get_groups h) = Some g -> g ∈ groups ->
  hosts_loop' groups (h :: rest) st = hosts_loop' groups rest st.
Proof.
  intros Hg Hin. cbn [hosts_loop].
  rewrite Hg, bool_decide_eq_true_2 by exact Hin. reflexivity.
Qed.

Lemma hosts_loop_new groups h rest g st :
  last (get_groups h) = Some g -> g ∉ groups ->
  hosts_loop' groups (h :: rest) st =
  match print markup_error (Header (host_name h) g) st with
  | (Raise e, st1) => (Raise e, st1)
  | (Return _, st1) =>
      match for_each (variable_sources (files st1) h (variable CLIARGS))
              variable_body' st1 with
      | (Raise e, st2) => (Raise e, st2)
      | (Return _, st2) => hosts_loop' (groups ++ [g]) rest st2
      end
  end.
Proof.
  intros Hg Hnew. cbn [hosts_loop].
  rewrite Hg, bool_decide_eq_false_2 by exact Hnew.
  rewrite bind_eq.
  destruct (print markup_error (Header (host_name h) g) st) as [[[]|e] st1];
    reflexivity.
Qed.

(** ** What a run can raise *)

Lemma raises_only_report_duplicates n dups :
  raises_only (fun e => e = MarkupError) (report_duplicates' n dups).
Proof.
  unfold report_duplicates. destruct dups as [|dups_0 rest];
    [apply raises_only_ret|].
  apply raises_only_when.
  apply raises_only_bind; [apply raises_only_print; reflexivity|].
  intros _. apply raises_only_for_each. intros dup.
  apply raises_only_bind;
    [|intros _; apply raises_only_print; reflexivity].
  apply raises_only_when, raises_only_call_delete_var.
Qed.

Lemma raises_only_variable_body v :
  raises_only (fun e => e = MarkupError) (variable_body' v).
Proof.
  unfold variable_body. apply raises_only_when.
  apply raises_only_bind;
    [apply raises_only_when, raises_only_print; reflexivity|].
  intros _. apply raises_only_when. intros st.
  destruct (file_occurrences (files st) v (check_duplicates CLIARGS))
    as [files_ dups].
  apply raises_only_bind.
  - apply raises_only_when, raises_only_for_each. intros ffile.
    apply raises_only_print. reflexivity.
  - intros _. apply raises_only_when, raises_only_report_duplicates.
Qed.

Lemma hosts_loop_outcome groups hosts st :
  match fst (hosts_loop' groups hosts st) with
  | Return _ => existsb no_groups hosts = false
  | Raise IndexError => existsb no_groups hosts = true
  | Raise MarkupError => True
  | Raise _ => False
  end.
Proof.
  revert groups st. induction hosts as [|h rest IH]; intros groups st;
    [reflexivity|].
  cbn [existsb]. destruct (last (get_groups h)) as [g|] eqn:Hg.
  - rewrite (has_groups _ _ Hg). cbn [orb].
    destruct (decide (g ∈ groups)) as [Hin|Hnew].
    + rewrite (hosts_loop_seen _ _ _ _ _ Hg Hin). apply IH.
    + rewrite (hosts_loop_new _ _ _ _ _ Hg Hnew).
      destruct (print_cases markup_error (Header (host_name h) g) st)
        as [[-> _]|[-> _]]; [exact I|].
      unfold emit.
      match goal with
      | |- context [for_each ?l ?b ?s] =>
          pose proof (raises_only_for_each (fun e => e = MarkupError) l b
                        raises_only_variable_body s) as Hvars;
          destruct (for_each l b s) as [[[]|e] st2]
      end; cbn [fst] in *.
      * apply IH.
      * subst e. exact I.
  - rewrite (hosts_loop_no_group _ _ _ _ Hg). cbn [fst].
    apply last_no_groups in Hg. rewrite Hg. reflexivity.
Qed.

(** X9: given that the collaborators return, a run raises nothing but
    [AnsibleOptionsError], and this only when no host is matched,
    [IndexError], and this only when a matched host has no group, and
    the [MarkupError] of [rich.print]; no exception of a file operation
    comes out of it; and when it completes, every matched host has a
    group. *)
Theorem run_raises_only st :
  match fst (run os_linesep io_faults markup_error get_hosts variable_sources
               file_occurrences verbosity CLIARGS st) with
  | Return _ =>
      get_hosts (host CLIARGS) <> [] /\
      existsb no_groups (get_hosts (host CLIARGS)) = false
  | Raise (AnsibleOptionsError _) => get_hosts (host CLIARGS) = []
  | Raise IndexError => existsb no_groups (get_hosts (host CLIARGS)) = true
  | Raise MarkupError => get_hosts (host CLIARGS) <> []
  | Raise (FileNotFoundError _) | Raise (OSError _) => False
  end.
Proof.
  unfold run. destruct (get_hosts (host CLIARGS)) as [|h hs]; [reflexivity|].
  pose proof (hosts_loop_outcome [] (h :: hs) st) as Hout.
  destruct (fst (hosts_loop' [] (h :: hs) st)) as [[]|[msg| |p|p|]].
  - split; [discriminate | exact Hout].
  - destruct Hout.
  - exact Hout.
  - exact Hout.
  - exact Hout.
  - discriminate.
Qed.

Lemma hosts_loop_abort groups before h after st :
  fst (hosts_loop' groups before st) = Return tt ->
  no_groups h = true ->
  hosts_loop' groups (before ++ h :: after) st =
  (Raise IndexError, snd (hosts_loop' groups before st)).
Proof.
  intros Hbefore Hh. revert groups st Hbefore.
  induction before as [|a before IH]; intros groups st Hbefore.
  - apply last_no_groups in Hh. apply hosts_loop_no_group, Hh.
  - rewrite <- app_comm_cons.
    destruct (last (get_groups a)) as [g|] eqn:Hg.
    + destruct (decide (g ∈ groups)) as [Hin|Hnew].
      * rewrite !(hosts_loop_seen _ _ _ _ _ Hg Hin) in *. apply IH, Hbefore.
      * rewrite !(hosts_loop_new _ _ _ _ _ Hg Hnew) in *.
        destruct (print markup_error (Header (host_name a) g) st)
          as [[[]|e] st1]; [|discriminate Hbefore].
        destruct (for_each (variable_sources (files st1) a (variable CLIARGS))
                    variable_body' st1) as [[[]|e] st2];
          [|discriminate Hbefore].
        apply IH, Hbefore.
    + rewrite (hosts_loop_no_group _ _ _ _ Hg) in Hbefore.
      discriminate Hbefore.
Qed.

(** X10: when the run on the hosts before it completes, a host without
    group aborts the run with [IndexError] where the loop reaches it:
    what the hosts before it gave (output, removals and their effect on
    the files) stays, and no host after it is looked at. *)
Theorem run_aborts_at_host_without_group get_hosts_before before h after st :
  get_hosts (host CLIARGS) = before ++ h :: after ->
  get_hosts_before (host CLIARGS) = before ->
  fst (run os_linesep io_faults markup_error get_hosts_before variable_sources
         file_occurrences verbosity CLIARGS st) = Return tt ->
  no_groups h = true ->
  run os_linesep io_faults markup_error get_hosts variable_sources
    file_occurrences verbosity CLIARGS st
  = (Raise IndexError,
     snd (run os_linesep io_faults markup_error get_hosts_before
            variable_sources file_occurrences verbosity CLIARGS st)).
Proof.
  intros Hall Hbefore Hdone Hh. unfold run in *. rewrite Hall, Hbefore in *.
  destruct before as [|a before]; [discriminate Hdone|].
  rewrite <- app_comm_cons, app_comm_cons.
  apply hosts_loop_abort; assumption.
Qed.

(** ** Output without the duplicate check *)

Lemma for_each_print {A} (f : A -> out) xs st :
  Forall (fun x => printable markup_error (f x) = true) xs ->
  for_each xs (fun x => print markup_error (f x)) st =
  (Return tt,
   {| files := files st; console := console st ++ map f xs;
      calls := calls st |}).
Proof.
  intros Hall. revert st. induction Hall as [|x xs Hx _ IH]; intros st.
  - cbn. rewrite app_nil_r. destruct st; reflexivity.
  - rewrite for_each_cons.
    destruct (print_cases markup_error (f x) st) as [[_ Hbad]|[-> _]];
      [congruence|].
    unfold emit. rewrite IH. cbn. rewrite <- app_assoc. reflexivity.
Qed.

Lemma variable_body_plain v st :
  truthy (check_duplicates CLIARGS) = false ->
  name v ∉ INTERNAL_VARS ->
  Forall (fun o => printable markup_error o = true)
    (plain_lines file_occurrences verbosity (check_duplicates CLIARGS)
       (files st) v) ->
  variable_body' v st =
  (Return tt,
   {| files := files st;
      console :=
        console st
        ++ plain_lines file_occurrences verbosity (check_duplicates CLIARGS)
             (files st) v;
      calls := calls st |}).
Proof.
  intros Hck Hn. unfold variable_body, plain_lines.
  rewrite bool_decide_eq_true_2 by exact Hn. rewrite Hck.
  intros Hall. apply Forall_cons in Hall as [Hvar Hfiles].
  cbn [when negb]. rewrite bind_eq.
  destruct (print_cases markup_error
              (VarLine (name v) (value v) (source_mapped v)) st)
    as [[_ Hbad]|[-> _]]; [congruence|].
  unfold emit. rewrite orb_false_r.
  destruct (1 <=? verbosity)%Z; cbn [when].
  - cbn [files] in *.
    destruct (file_occurrences (files st) v (check_duplicates CLIARGS))
      as [files_ dups].
    cbn [fst] in Hfiles. rewrite bind_eq, for_each_print.
    + cbn. rewrite <- app_assoc. reflexivity.
    + apply Forall_map in Hfiles. exact Hfiles.
  - cbn. reflexivity.
Qed.

Lemma for_each_variable_body_plain vs st :
  truthy (check_duplicates CLIARGS) = false ->
  Forall (fun o => printable markup_error o = true)
    (concat
       (map (plain_lines file_occurrences verbosity
               (check_duplicates CLIARGS) (files st))
          (filter (fun v => name v ∉ INTERNAL_VARS) vs))) ->
  for_each vs variable_body' st =
  (Return tt,
   {| files := files st;
      console :=
        console st
        ++ concat
             (map (plain_lines file_occurrences verbosity
                     (check_duplicates CLIARGS) (files st))
                (filter (fun v => name v ∉ INTERNAL_VARS) vs));
      calls := calls st |}).
Proof.
  intros Hck. revert st. induction vs as [|v vs IH]; intros st Hall.
  - cbn. rewrite app_nil_r. destruct st; reflexivity.
  - rewrite for_each_cons.
    destruct (decide (name v ∈ INTERNAL_VARS)) as [Hin|Hout].
    + rewrite filter_cons_False in * by (intros Hn; exact (Hn Hin)).
      rewrite (variable_body_internal os_linesep io_faults markup_error
                 file_occurrences verbosity CLIARGS v st Hin).
      apply IH, Hall.
    + rewrite filter_cons_True in * by exact Hout.
      cbn [map concat] in Hall. apply Forall_app in Hall as [Hv Hrest].
      rewrite (variable_body_plain _ _ Hck Hout Hv), IH by exact Hrest.
      cbn. rewrite <- app_assoc. reflexivity.
Qed.

(** X11: without the duplicate check, and when [rich.print] takes every
    line, the loop over the variables of a host prints, for each
    variable outside [INTERNAL_VARS] and in the order of
    [variable_sources], its value line followed under [-v] by the files
    that define it; it changes no file and asks for no removal. *)
Theorem variables_without_check vs st :
  truthy (check_duplicates CLIARGS) = false ->
  Forall (fun o => printable markup_error o = true)
    (concat
       (map (plain_lines file_occurrences verbosity
               (check_duplicates CLIARGS) (files st))
          (filter (fun v => name v ∉ INTERNAL_VARS) vs))) ->
  for_each vs
    (variable_body os_linesep io_faults markup_error file_occurrences
       verbosity CLIARGS) st =
  (Return tt,
   {| files := files st;
      console :=
        console st
        ++ concat
             (map (plain_lines file_occurrences verbosity
                     (check_duplicates CLIARGS) (files st))
                (filter (fun v => name v ∉ INTERNAL_VARS) vs));
      calls := calls st |}).
Proof. apply for_each_variable_body_plain. Qed.

(** ** What is printed under the duplicate check *)

Section Prints.

Variable P : out -> Prop.
Hypothesis P_var_line :
  truthy (check_duplicates CLIARGS) = false -> forall n v src, P (VarLine n v src).
Hypothesis P_file_line : forall f, P (FileLine f).
Hypothesis P_dup_header : forall n f, P (DupHeader n f).
Hypothesis P_dup_line : forall d b, P (DupLine d b).
Hypothesis P_traceback : forall e, P (Traceback e).

Lemma report_duplicates_prints n dups :
  respects (prints_only P) (report_duplicates' n dups).
Proof.
  unfold report_duplicates. apply respects_when; [preorder.. |].
  destruct dups as [|dups_0 rest]; [apply respects_raise; preorder|].
  apply respects_bind; [preorder.. | |].
  { apply respects_print_prints_only, P_dup_header. }
  intros _. apply respects_for_each; [preorder.. |].
  intros dup. apply respects_bind; [preorder.. | |].
  - apply respects_when; [preorder.. |].
    apply respects_call_delete_var_prints, P_traceback.
  - intros _. apply respects_print_prints_only, P_dup_line.
Qed.

Lemma variable_body_prints v : respects (prints_only P) (variable_body' v).
Proof.
  unfold variable_body. apply respects_when; [preorder.. |].
  apply respects_bind; [preorder.. | |].
  - destruct (truthy (check_duplicates CLIARGS)) eqn:Hck; cbn [negb when].
    + apply respects_ret; preorder.
    + apply respects_print_prints_only, P_var_line. reflexivity.
  - intros _. apply respects_when; [preorder.. |]. intros st.
    destruct (file_occurrences (files st) v (check_duplicates CLIARGS))
      as [files_ dups].
    apply respects_bind; [preorder.. | |].
    + apply respects_when; [preorder.. |].
      apply respects_for_each; [preorder.. |].
      intros ffile. apply respects_print_prints_only, P_file_line.
    + intros _. apply respects_when; [preorder.. |].
      apply report_duplicates_prints.
Qed.

Lemma variables_print h :
  respects (prints_only P) (fun st =>
    for_each (variable_sources (files st) h (variable CLIARGS))
      variable_body' st).
Proof.
  intros st. apply respects_for_each; [preorder.. |].
  intros v. apply variable_body_prints.
Qed.

Lemma hosts_loop_prints groups hosts :
  (forall h g, P (Header h g)) ->
  respects (prints_only P) (hosts_loop' groups hosts).
Proof.
  intros P_header. revert groups.
  induction hosts as [|h rest IH]; intros groups; cbn [hosts_loop].
  - apply respects_ret; preorder.
  - destruct (last (get_groups h)) as [g|]; [|apply respects_raise; preorder].
    destruct (bool_decide (g ∈ groups)); [apply IH|].
    apply respects_bind; [preorder.. | |].
    { apply respects_print_prints_only, P_header. }
    intros _. apply respects_bind; [preorder.. | apply variables_print |].
    intros _. apply IH.
Qed.

End Prints.

(** X12: under the duplicate check no value line is printed: a run
    with [--check-duplicates] prints headers, file lines, duplicate
    reports and tracebacks only. *)
Theorem check_duplicates_hides_values st :
  truthy (check_duplicates CLIARGS) = true ->
  exists new,
    console (snd (run os_linesep io_faults markup_error get_hosts
                    variable_sources file_occurrences verbosity CLIARGS st))
    = console st ++ new /\
    Forall (fun o => is_var_line o = false) new.
Proof.
  intros Hck. unfold run. destruct (get_hosts (host CLIARGS)) as [|h hs].
  - apply (prints_only_refl _ st).
  - apply hosts_loop_prints; try reflexivity. congruence.
Qed.

(** ** Headers *)

Lemma header_groups_app c1 c2 :
  header_groups (c1 ++ c2) = header_groups c1 ++ header_groups c2.
Proof.
  induction c1 as [|o c1 IH]; [reflexivity|].
  destruct o; cbn [app header_groups]; rewrite IH; reflexivity.
Qed.

Lemma header_groups_none c :
  Forall (fun o => header_groups [o] = []) c -> header_groups c = [].
Proof.
  induction 1 as [|o c Ho _ IH]; [reflexivity|].
  change (o :: c) with ([o] ++ c). rewrite header_groups_app, Ho, IH.
  reflexivity.
Qed.

(** The variables of a host add no header. *)
Lemma variables_no_header h st :
  exists vars_out,
    console (snd (for_each (variable_sources (files st) h (variable CLIARGS))
                    variable_body' st))
    = console st ++ vars_out /\
    header_groups vars_out = [].
Proof.
  destruct (variables_print (fun o => header_groups [o] = [])
              (fun _ _ _ _ => eq_refl) (fun _ => eq_refl)
              (fun _ _ => eq_refl) (fun _ _ => eq_refl)
              (fun _ => eq_refl) h st) as (vars_out & Hv & Hall).
  exists vars_out. split; [exact Hv | apply header_groups_none, Hall].
Qed.

Lemma hosts_loop_headers groups hosts st :
  exists new,
    console (snd (hosts_loop' groups hosts st)) = console st ++ new /\
    NoDup (header_groups new) /\
    (forall g, g ∈ header_groups new ->
       (g ∉ groups) /\ exists h, h ∈ hosts /\ last (get_groups h) = Some g) /\
    (fst (hosts_loop' groups hosts st) = Return tt ->
     forall h g, h ∈ hosts -> last (get_groups h) = Some g ->
       g ∈ groups \/ g ∈ header_groups new).
Proof.
  revert groups st. induction hosts as [|a rest IH]; intros groups st.
  - exists []. rewrite app_nil_r. split; [reflexivity|].
    split; [constructor|]. split; [intros g Hg; inversion Hg|].
    intros _ h g Hh. inversion Hh.
  - destruct (last (get_groups a)) as [ga|] eqn:Hga.
    + destruct (decide (ga ∈ groups)) as [Hin|Hnew].
      * rewrite (hosts_loop_seen _ _ _ _ _ Hga Hin).
        destruct (IH groups st) as (new & Hc & Hnd & Hsub & Hsup).
        exists new. split; [exact Hc|]. split; [exact Hnd|]. split.
        -- intros g Hg. destruct (Hsub g Hg) as (? & h & Hh & Hl).
           split; [assumption|]. exists h. split; [|exact Hl].
           apply elem_of_cons. right. exact Hh.
        -- intros Hdone h g Hh Hl. apply elem_of_cons in Hh as [->|Hh].
           ++ left. congruence.
           ++ exact (Hsup Hdone h g Hh Hl).
      * rewrite (hosts_loop_new _ _ _ _ _ Hga Hnew).
        destruct (print_cases markup_error (Header (host_name a) ga) st)
          as [[-> _]|[-> _]].
        { exists []. cbn [fst snd]. rewrite app_nil_r.
          split; [reflexivity|]. split; [constructor|].
          split; [intros g Hg; inversion Hg | discriminate]. }
        unfold emit.
        match goal with
        | |- context [for_each _ variable_body' ?s] => set (st1 := s)
        end.
        destruct (variables_no_header a st1) as (vars_out & Hc2 & Hnone).
        assert (forall new',
                  header_groups (Header (host_name a) ga :: vars_out ++ new')
                  = ga :: header_groups new') as Hhg.
        { intros new'. cbn [header_groups].
          rewrite header_groups_app, Hnone. reflexivity. }
        destruct (for_each (variable_sources (files st1) a (variable CLIARGS))
                    variable_body' st1) as [[[]|e] st2]; cbn [snd] in Hc2.
        -- destruct (IH (groups ++ [ga]) st2)
             as (new & Hc & Hnd & Hsub & Hsup).
           exists (Header (host_name a) ga :: vars_out ++ new).
           rewrite Hhg. split.
           { rewrite Hc, Hc2. subst st1. cbn [console].
             rewrite <- !app_assoc. reflexivity. }
           split.
           { apply NoDup_cons. split; [|exact Hnd].
             intros Hg. destruct (Hsub ga Hg) as [Hout _]. apply Hout.
             apply elem_of_app. right. apply list_elem_of_here. }
           split.
           ++ intros g Hg. apply elem_of_cons in Hg as [->|Hg].
              ** split; [exact Hnew|]. exists a.
                 split; [apply list_elem_of_here | exact Hga].
              ** destruct (Hsub g Hg) as (Hout & h & Hh & Hl). split.
                 --- intros Hin. apply Hout, elem_of_app. left. exact Hin.
                 --- exists h. split; [apply elem_of_cons; right; exact Hh
                                      | exact Hl].
           ++ intros Hdone h g Hh Hl. apply elem_of_cons in Hh as [->|Hh].
              ** right. assert (g = ga) as -> by congruence.
                 apply list_elem_of_here.
              ** destruct (Hsup Hdone h g Hh Hl) as [Hin|Hin].
                 --- apply elem_of_app in Hin as [Hin|Hin]; [left; exact Hin|].
                     apply list_elem_of_singleton in Hin as ->.
                     right. apply list_elem_of_here.
                 --- right. apply elem_of_cons. right. exact Hin.
        -- exists (Header (host_name a) ga :: vars_out ++ []).
           rewrite Hhg. cbn [fst snd header_groups]. split.
           { rewrite Hc2, app_nil_r. subst st1. cbn [console].
             rewrite <- app_assoc. reflexivity. }
           split; [apply NoDup_singleton|].
           split; [|discriminate].
           intros g Hg. apply list_elem_of_singleton in Hg as ->.
           split; [exact Hnew|]. exists a.
           split; [apply list_elem_of_here | exact Hga].
    + rewrite (hosts_loop_no_group _ _ _ _ Hga). exists [].
      cbn [fst snd]. rewrite app_nil_r.
      split; [reflexivity|]. split; [constructor|].
      split; [intros g Hg; inversion Hg | discriminate].
Qed.

(** X13: the headers of a run name pairwise distinct groups, each the
    last group of a matched host; and when the run completes, the last
    group of each matched host has its header. *)
Theorem run_headers st :
  exists new,
    console (snd (run os_linesep io_faults markup_error get_hosts
                    variable_sources file_occurrences verbosity CLIARGS st))
    = console st ++ new /\
    NoDup (header_groups new) /\
    (forall g, g ∈ header_groups new ->
       exists h, h ∈ get_hosts (host CLIARGS) /\ last (get_groups h) = Some g) /\
    (fst (run os_linesep io_faults markup_error get_hosts variable_sources
            file_occurrences verbosity CLIARGS st) = Return tt ->
     forall h g, h ∈ get_hosts (host CLIARGS) -> last (get_groups h) = Some g ->
       g ∈ header_groups new).
Proof.
  unfold run. destruct (get_hosts (host CLIARGS)) as [|a hs] eqn:Hhosts.
  - exists []. rewrite app_nil_r. split; [reflexivity|]. split; [constructor|].
    split; [intros g Hg; inversion Hg | intros _ h g Hh; inversion Hh].
  - destruct (hosts_loop_headers [] (a :: hs) st) as (new & Hc & Hnd & Hsub & Hsup).
    exists new. split; [exact Hc|]. split; [exact Hnd|]. split.
    + intros g Hg. apply Hsub, Hg.
    + intros Hdone h g Hh Hl. destruct (Hsup Hdone h g Hh Hl) as [Hin|Hin];
        [inversion Hin | exact Hin].
Qed.

(** ** The files after a duplicate report *)

Lemma duplicate_step_keeps_file n dup p :
  p <> dup ->
  respects (keeps_file p)
    (when (truthy (remove_duplicates CLIARGS))
       (call_delete_var' dup (n +:+ ":")) ;;;
     print markup_error (DupLine dup (truthy (remove_duplicates CLIARGS)))).
Proof.
  intros Hp. apply respects_bind; [exact (keeps_file_trans p) | |].
  - apply respects_when; [exact (keeps_file_refl p)|].
    apply respects_call_delete_var_keeps_file, Hp.
  - intros _. apply respects_print_keeps_file.
Qed.

Lemma duplicates_loop_keeps_file n rest p :
  p ∉ rest ->
  respects (keeps_file p)
    (for_each rest (fun dup =>
       when (truthy (remove_duplicates CLIARGS))
         (call_delete_var' dup (n +:+ ":")) ;;;
       print markup_error (DupLine dup (truthy (remove_duplicates CLIARGS))))).
Proof.
  intros Hp.
  apply respects_for_each_in;
    [exact (keeps_file_refl p) | exact (keeps_file_trans p) |].
  intros dup Hdup. apply duplicate_step_keeps_file.
  intros ->. exact (Hp Hdup).
Qed.

(** X14: a duplicate report changes no file but those of the later
    occurrences: the file of the first occurrence, when its path is not
    listed again, is after the report as it was before, whatever
    fails. *)
Theorem report_duplicates_spares_other_files n dups st :
  (forall p, p ∉ drop 1 dups ->
     files (snd (report_duplicates os_linesep io_faults markup_error CLIARGS
                   n dups st)) !! p = files st !! p) /\
  (forall first rest, dups = first :: rest -> first ∉ rest ->
     files (snd (report_duplicates os_linesep io_faults markup_error CLIARGS
                   n dups st)) !! first = files st !! first).
Proof.
  assert (forall p, p ∉ drop 1 dups ->
            files (snd (report_duplicates' n dups st)) !! p = files st !! p)
    as Hframe.
  { intros p Hp. revert st.
    change (respects (keeps_file p) (report_duplicates' n dups)).
    unfold report_duplicates.
    apply respects_when; [exact (keeps_file_refl p)|].
    destruct dups as [|dups_0 rest];
      [apply respects_raise; exact (keeps_file_refl p)|].
    apply respects_bind;
      [exact (keeps_file_trans p) | apply respects_print_keeps_file |].
    intros _. apply duplicates_loop_keeps_file, Hp. }
  split; [exact Hframe|].
  intros first rest -> Hfirst. apply Hframe. exact Hfirst.
Qed.

Lemma call_delete_var_no_fault path var st :
  (forall i, io_faults i = NoFault) ->
  files (snd (call_delete_var' path var st)) !! path
  = rewritten os_linesep var <$> files st !! path.
Proof.
  intros Hfaults. unfold call_delete_var. rewrite Hfaults.
  destruct (files st !! path) as [content|] eqn:Hfile.
  - erewrite delete_var_no_fault by exact Hfile.
    cbn [snd]. rewrite files_set_file. apply lookup_insert_eq.
  - rewrite delete_var_eq, delete_var_body_missing by exact Hfile.
    cbn [snd files]. rewrite Hfile. reflexivity.
Qed.

Lemma duplicate_step_rewrites n dup st :
  (forall i, io_faults i = NoFault) ->
  truthy (remove_duplicates CLIARGS) = true ->
  files (snd ((when (truthy (remove_duplicates CLIARGS))
                 (call_delete_var' dup (n +:+ ":")) ;;;
               print markup_error
                 (DupLine dup (truthy (remove_duplicates CLIARGS)))) st))
    !! dup
  = rewritten os_linesep (n +:+ ":") <$> files st !! dup.
Proof.
  intros Hfaults Hrm. rewrite bind_eq, Hrm. cbn [when].
  destruct (call_delete_var_effects dup (n +:+ ":") st) as (Hret & _).
  pose proof (call_delete_var_no_fault dup (n +:+ ":") st Hfaults) as Hfile.
  destruct (call_delete_var' dup (n +:+ ":") st) as [r st1].
  cbn [fst snd] in *. subst r.
  rewrite <- Hfile. apply respects_print_keeps_file.
Qed.

Lemma duplicates_loop_rewrites n rest st :
  (forall i, io_faults i = NoFault) ->
  truthy (remove_duplicates CLIARGS) = true ->
  NoDup rest ->
  fst (for_each rest (fun dup =>
         when (truthy (remove_duplicates CLIARGS))
           (call_delete_var' dup (n +:+ ":")) ;;;
         print markup_error
           (DupLine dup (truthy (remove_duplicates CLIARGS)))) st)
  = Return tt ->
  forall d, d ∈ rest ->
    files (snd (for_each rest (fun dup =>
                  when (truthy (remove_duplicates CLIARGS))
                    (call_delete_var' dup (n +:+ ":")) ;;;
                  print markup_error
                    (DupLine dup (truthy (remove_duplicates CLIARGS)))) st))
      !! d
    = rewritten os_linesep (n +:+ ":") <$> files st !! d.
Proof.
  intros Hfaults Hrm. revert st.
  induction rest as [|dup rest IH]; intros st Hnd Hdone d Hd; [inversion Hd|].
  apply NoDup_cons in Hnd as [Hdup Hnd].
  pose proof (duplicate_step_rewrites n dup st Hfaults Hrm) as Hstep.
  assert (forall p, p <> dup ->
            files (snd ((when (truthy (remove_duplicates CLIARGS))
                           (call_delete_var' dup (n +:+ ":")) ;;;
                         print markup_error
                           (DupLine dup (truthy (remove_duplicates CLIARGS))))
                          st)) !! p
            = files st !! p) as Hother.
  { intros p Hp. apply (duplicate_step_keeps_file n dup p Hp st). }
  rewrite for_each_cons in Hdone |- *.
  destruct ((when (truthy (remove_duplicates CLIARGS))
               (call_delete_var' dup (n +:+ ":")) ;;;
             print markup_error
               (DupLine dup (truthy (remove_duplicates CLIARGS)))) st)
    as [[[]|e] st1]; [|discriminate Hdone].
  cbn [snd] in Hstep, Hother.
  apply elem_of_cons in Hd as [->|Hd].
  - rewrite <- Hstep. apply (duplicates_loop_keeps_file n rest dup Hdup st1).
  - rewrite (IH st1 Hnd Hdone d Hd). f_equal. apply Hother.
    intros ->. exact (Hdup Hd).
Qed.

(** X15: when nothing fails, removal is asked for and the report
    completes, a duplicate report leaves the file of every later
    occurrence rewritten without the blocks of the variable (a path that
    holds no file stays without), for later occurrences of pairwise
    distinct paths. *)
Theorem report_duplicates_rewrites_later_files n first rest st :
  (forall i, io_faults i = NoFault) ->
  truthy (remove_duplicates CLIARGS) = true ->
  NoDup rest ->
  fst (report_duplicates os_linesep io_faults markup_error CLIARGS n
         (first :: rest) st) = Return tt ->
  forall d, d ∈ rest ->
    files (snd (report_duplicates os_linesep io_faults markup_error CLIARGS n
                  (first :: rest) st)) !! d
    = rewritten os_linesep (n +:+ ":") <$> files st !! d.
Proof.
  intros Hfaults Hrm Hnd Hdone d Hd. unfold report_duplicates in *.
  destruct rest as [|d0 rest]; [inversion Hd|].
  change (1 <? length (first :: d0 :: rest))%nat with true in *.
  cbn [when drop] in *. rewrite bind_eq in Hdone |- *.
  destruct (print_cases markup_error (DupHeader n first) st)
    as [[Hp _]|[Hp _]]; rewrite Hp in *; [discriminate Hdone|].
  unfold emit in Hdone |- *. cbv iota beta in Hdone |- *.
  rewrite (duplicates_loop_rewrites n (d0 :: rest) _ Hfaults Hrm Hnd Hdone d Hd).
  reflexivity.
Qed.

End RunFurther.

(** ** A quiet run does not look for occurrences *)

Lemma for_each_ext {A} (xs : list A) (f g : A -> M unit) st :
  (forall x st', f x st' = g x st') -> for_each xs f st = for_each xs g st.
Proof.
  intros Hfg. revert st. induction xs as [|x xs IH]; intros st; [reflexivity|].
  rewrite !for_each_cons, Hfg.
  destruct (g x st) as [[[]|e] st1]; [apply IH | reflexivity].
Qed.

Lemma variable_body_quiet os_linesep io_faults markup_error
    file_occurrences1 file_occurrences2 verbosity CLIARGS v st :
  truthy (check_duplicates CLIARGS) = false -> (verbosity < 1)%Z ->
  variable_body os_linesep io_faults markup_error file_occurrences1 verbosity
    CLIARGS v st
  = variable_body os_linesep io_faults markup_error file_occurrences2
      verbosity CLIARGS v st.
Proof.
  intros Hck Hq. unfold variable_body. rewrite Hck.
  destruct (Z.leb_spec 1 verbosity); [lia | reflexivity].
Qed.

Lemma hosts_loop_quiet os_linesep io_faults markup_error variable_sources
    file_occurrences1 file_occurrences2 verbosity CLIARGS groups hosts st :
  truthy (check_duplicates CLIARGS) = false -> (verbosity < 1)%Z ->
  hosts_loop os_linesep io_faults markup_error variable_sources
    file_occurrences1 verbosity CLIARGS groups hosts st
  = hosts_loop os_linesep io_faults markup_error variable_sources
      file_occurrences2 verbosity CLIARGS groups hosts st.
Proof.
  intros Hck Hq. revert groups st.
  induction hosts as [|h rest IH]; intros groups st; [reflexivity|].
  destruct (last (get_groups h)) as [g|] eqn:Hg.
  - destruct (decide (g ∈ groups)) as [Hin|Hnew].
    + rewrite !(hosts_loop_seen _ _ _ _ _ _ _ _ _ _ _ _ Hg Hin). apply IH.
    + rewrite !(hosts_loop_new _ _ _ _ _ _ _ _ _ _ _ _ Hg Hnew).
      destruct (print markup_error (Header (host_name h) g) st)
        as [[[]|e] st1]; [|reflexivity].
      rewrite (for_each_ext _ _ _ _
                 (fun v st' =>
                    variable_body_quiet os_linesep io_faults markup_error
                      file_occurrences1 file_occurrences2 verbosity CLIARGS
                      v st' Hck Hq)).
      destruct (for_each _ _ st1) as [[[]|e] st2]; [apply IH | reflexivity].
  - rewrite !(hosts_loop_no_group _ _ _ _ _ _ _ _ _ _ _ Hg). reflexivity.
Qed.

(** X16: without the duplicate check and without [-v], a run does not
    depend on what [file_occurrences] would find: it is the same run for
    any two locators. *)
Theorem quiet_run_ignores_occurrences os_linesep io_faults markup_error
    get_hosts variable_sources file_occurrences1 file_occurrences2 verbosity
    CLIARGS st :
  truthy (check_duplicates CLIARGS) = false -> (verbosity < 1)%Z ->
  run os_linesep io_faults markup_error get_hosts variable_sources
    file_occurrences1 verbosity CLIARGS st
  = run os_linesep io_faults markup_error get_hosts variable_sources
      file_occurrences2 verbosity CLIARGS st.
Proof.
  intros Hck Hq. unfold run.
  destruct (get_hosts (host CLIARGS)) as [|h hs]; [reflexivity|].
  apply hosts_loop_quiet; assumption.
Qed.

Lemma quiet_run_ignores_occurrences_witness :
  truthy (check_duplicates no_option) = false /\ (0 < 1)%Z /\
  run nl no_faults rejects_closing_x three_hosts example_sources
    example_occurrences 0 no_option (initial example_files)
  = run nl no_faults rejects_closing_x three_hosts example_sources
      no_occurrences 0 no_option (initial example_files).
Proof.
  split; [reflexivity|]. split; [reflexivity|].
  apply quiet_run_ignores_occurrences; reflexivity.
Defined.

Lemma run_aborts_at_host_without_group_witness :
  hosts_with_lone (host both_options) = [web1] ++ lone :: [db1] /\
  only_web1 (host both_options) = [web1] /\
  fst (run nl no_faults rejects_closing_x only_web1 example_sources
         example_occurrences 1 both_options (initial example_files))
  = Return tt /\
  no_groups lone = true /\
  run nl no_faults rejects_closing_x hosts_with_lone example_sources
    example_occurrences 1 both_options (initial example_files)
  = (Raise IndexError,
     snd (run nl no_faults rejects_closing_x only_web1 example_sources
            example_occurrences 1 both_options (initial example_files))).
Proof.
  split; [reflexivity|]. split; [reflexivity|].
  split; [reflexivity|]. split; [reflexivity|].
  apply run_aborts_at_host_without_group
    with (before := [web1]) (h := lone) (after := [db1]);
    reflexivity.
Defined.

Lemma variables_without_check_witness :
  truthy (check_duplicates no_option) = false /\
  Forall (fun o => printable rejects_closing_x o = true)
    (concat
       (map (plain_lines example_occurrences 1 (check_duplicates no_option)
               (files (initial example_files)))
          (filter (fun v => name v ∉ INTERNAL_VARS)
             (example_sources example_files web1 None)))) /\
  for_each (example_sources example_files web1 None)
    (variable_body nl no_faults rejects_closing_x example_occurrences 1
       no_option)
    (initial example_files)
  = (Return tt,
     {| files := files (initial example_files);
        console :=
          console (initial example_files)
          ++ concat
               (map (plain_lines example_occurrences 1
                       (check_duplicates no_option)
                       (files (initial example_files)))
                  (filter (fun v => name v ∉ INTERNAL_VARS)
                     (example_sources example_files web1 None)));
        calls := calls (initial example_files) |}).
Proof.
  assert (Forall (fun o => printable rejects_closing_x o = true)
            (concat
               (map (plain_lines example_occurrences 1
                       (check_duplicates no_option)
                       (files (initial example_files)))
                  (filter (fun v => name v ∉ INTERNAL_VARS)
                     (example_sources example_files web1 None)))))
    as Hprintable by (vm_compute; repeat constructor).
  split; [reflexivity|]. split; [exact Hprintable|].
  apply variables_without_check; [reflexivity | exact Hprintable].
Defined.

Lemma check_duplicates_hides_values_witness :
  truthy (check_duplicates both_options) = true /\
  exists new,
    console (snd (run nl no_faults rejects_closing_x three_hosts
                    example_sources example_occurrences 1 both_options
                    (initial example_files)))
    = console (initial example_files) ++ new /\
    Forall (fun o => is_var_line o = false) new.
Proof.
  split; [reflexivity|].
  apply check_duplicates_hides_values. reflexivity.
Defined.

Lemma run_headers_witness :
  fst (run nl no_faults rejects_closing_x three_hosts example_sources
         example_occurrences 1 both_options (initial example_files))
  = Return tt /\
  web2 ∈ three_hosts (host both_options) /\
  last (get_groups web2) = Some "web" /\
  exists new,
    console (snd (run nl no_faults rejects_closing_x three_hosts
                    example_sources example_occurrences 1 both_options
                    (initial example_files)))
    = console (initial example_files) ++ new /\
    NoDup (header_groups new) /\
    "web" ∈ header_groups new.
Proof.
  assert (web2 ∈ three_hosts (host both_options)) as Hin
    by (apply list_elem_of_further, list_elem_of_here).
  split; [reflexivity|]. split; [exact Hin|]. split; [reflexivity|].
  destruct (run_headers nl no_faults rejects_closing_x three_hosts
              example_sources example_occurrences 1 both_options
              (initial example_files))
    as (new & Hc & Hnd & _ & Hsup).
  exists new. split; [exact Hc|]. split; [exact Hnd|].
  apply (Hsup eq_refl web2 "web" Hin eq_refl).
Defined.

Lemma report_duplicates_spares_other_files_witness :
  ("host_vars/web1.yml" ∉ ["group_vars/all.yml"]) /\
  files (snd (report_duplicates nl no_faults rejects_closing_x both_options
                "timeout" ["host_vars/web1.yml"; "group_vars/all.yml"]
                (initial example_files))) !! "host_vars/web1.yml"
  = files (initial example_files) !! "host_vars/web1.yml".
Proof.
  assert ("host_vars/web1.yml" ∉ ["group_vars/all.yml"]) as Hout
    by (intros Hin; apply list_elem_of_singleton in Hin; discriminate Hin).
  split; [exact Hout|].
  exact (proj2 (report_duplicates_spares_other_files nl no_faults
                  rejects_closing_x both_options "timeout"
                  ["host_vars/web1.yml"; "group_vars/all.yml"]
                  (initial example_files))
           "host_vars/web1.yml" ["group_vars/all.yml"] eq_refl Hout).
Defined.

Lemma report_duplicates_rewrites_later_files_witness :
  (forall i, no_faults i = NoFault) /\
  truthy (remove_duplicates both_options) = true /\
  NoDup ["group_vars/all.yml"] /\
  fst (report_duplicates nl no_faults rejects_closing_x both_options "timeout"
         ("host_vars/web1.yml" :: ["group_vars/all.yml"])
         (initial example_files)) = Return tt /\
  "group_vars/all.yml" ∈ ["group_vars/all.yml"] /\
  files (snd (report_duplicates nl no_faults rejects_closing_x both_options
                "timeout" ("host_vars/web1.yml" :: ["group_vars/all.yml"])
                (initial example_files))) !! "group_vars/all.yml"
  = rewritten nl ("timeout" +:+ ":")
      <$> files (initial example_files) !! "group_vars/all.yml".
Proof.
  assert (NoDup ["group_vars/all.yml"]) as Hnd by apply NoDup_singleton.
  assert ("group_vars/all.yml" ∈ ["group_vars/all.yml"]) as Hin
    by apply list_elem_of_here.
  split; [reflexivity|]. split; [reflexivity|].
  split; [exact Hnd|]. split; [reflexivity|]. split; [exact Hin|].
  apply report_duplicates_rewrites_later_files;
    [reflexivity | reflexivity | exact Hnd | reflexivity | exact Hin].
Defined.

(** ** Blocks end at a top-level line *)

Lemma scan_from_app var b l1 l2 :
  exists b',
    scan_from var b (l1 ++ l2) = scan_from var b l1 ++ scan_from var b' l2.
Proof.
  revert b. induction l1 as [|l l1 IH]; intros b.
  - exists b. reflexivity.
  - rewrite <- app_comm_cons, !scan_from_cons.
    destruct (IH (startswith var l || b && startswith_space_or_tab l))
      as (b' & ->).
    exists b'. apply app_assoc.
Qed.

Lemma scan_from_top_level var b line rest :
  startswith_space_or_tab line = false ->
  scan_from var b (line :: rest) = scan var (line :: rest).
Proof.
  intros Htop. unfold scan. rewrite !scan_from_cons, Htop, !andb_false_r.
  reflexivity.
Qed.

(** X17: removal is local to the part of a file that a top-level line
    opens: when the second of two runs of lines begins with a line that
    is not indented, the scan of the two together is the scan of the
    first followed by the scan of the second. *)
Theorem scan_app_top_level var l1 line l2 :
  startswith_space_or_tab line = false ->
  scan var (l1 ++ line :: l2) = scan var l1 ++ scan var (line :: l2).
Proof.
  intros Htop. unfold scan at 1 2.
  destruct (scan_from_app var false l1 (line :: l2)) as (b' & ->).
  rewrite (scan_from_top_level var b' line l2 Htop). reflexivity.
Qed.

Lemma scan_app_top_level_witness :
  startswith_space_or_tab ("y: 2" +:+ nl) = false /\
  scan "x:" (["x: 1" +:+ nl; "  a" +:+ nl] ++ ("y: 2" +:+ nl) :: ["x: 3" +:+ nl])
  = scan "x:" ["x: 1" +:+ nl; "  a" +:+ nl]
    ++ scan "x:" (("y: 2" +:+ nl) :: ["x: 3" +:+ nl]).
Proof.
  split; [reflexivity|].
  apply scan_app_top_level. reflexivity.
Defined.
